(** * mcp-interactive: the request-correlation and process-lifecycle bridge

    A shallow embedding of [src/index.js] and [src/initial_tools.js].

    The bridge is a single-threaded, event-driven program: every callback
    (a tool call, a chunk on a child's standard output, a child's close
    event, ...) runs to completion on the module state

      - [electronProcess]  the tracked child process, or null
      - [pendingRequests]  a JS [Map] from request ids to continuations

    Each callback is embedded as a function on [State]; [step] dispatches an
    [Event] to its callback and [reachable] closes the initial state under
    the events the runtime can deliver. *)

From Stdlib Require Import Ascii String.
From stdpp Require Import gmap strings list pretty.

Local Open Scope N_scope.

(** ** JavaScript strings

    A JS string is a sequence of UTF-16 code units.  Literals of the source
    are ASCII and are written [js "..."]. *)

Abbreviation jsstring := (list N).

Definition js (s : string) : jsstring :=
  (λ a, N_of_ascii a) <$> list_ascii_of_string s.

(** ECMAScript [WhiteSpace] and [LineTerminator] code points: what
    [String.prototype.trim] strips. *)
Definition isWhiteSpace (c : N) : bool :=
  (9 <=? c) && (c <=? 13)                (* TAB LF VT FF CR *)
  || (c =? 32) || (c =? 160)             (* SP, NBSP *)
  || (c =? 5760)                         (* U+1680 *)
  || (8192 <=? c) && (c <=? 8202)        (* U+2000 .. U+200A *)
  || (c =? 8232) || (c =? 8233)          (* U+2028, U+2029 *)
  || (c =? 8239) || (c =? 8287)          (* U+202F, U+205F *)
  || (c =? 12288) || (c =? 65279).       (* U+3000, U+FEFF *)

Fixpoint trimStart (s : jsstring) : jsstring :=
  match s with
  | c :: s' => if isWhiteSpace c then trimStart s' else s
  | [] => []
  end.

Fixpoint trimEnd (s : jsstring) : jsstring :=
  match s with
  | c :: s' =>
      match trimEnd s' with
      | [] => if isWhiteSpace c then [] else [c]
      | t => c :: t
      end
  | [] => []
  end.

(** [s.trim()] *)
Definition trim (s : jsstring) : jsstring := trimEnd (trimStart s).

(** [s.split(sep)] for a one-unit separator: never the empty array *)
Fixpoint split (sep : N) (s : jsstring) : list jsstring :=
  match s with
  | [] => [[]]
  | c :: s' =>
      if c =? sep then [] :: split sep s'
      else match split sep s' with
           | l :: ls => (c :: l) :: ls
           | [] => [[c]]
           end
  end.

(** [s.startsWith(p)] *)
Fixpoint startsWith (s p : jsstring) {struct p} : bool :=
  match p, s with
  | [], _ => true
  | a :: p', b :: s' => (a =? b) && startsWith s' p'
  | _ :: _, [] => false
  end.

(** [s.substring(n)] for [n >= 0] *)
Definition substring (s : jsstring) (n : nat) : jsstring := drop n s.

(** Truthiness of a string: every string but the empty one. *)
Definition truthy (s : jsstring) : bool :=
  match s with [] => false | _ => true end.

(** [n.toString()] / [String(n)] of an integer below 2^53 in magnitude,
    which a JS number holds exactly and writes with all its decimal digits
    (so is [Date.now()]); beyond, the program rounds the digits, and from
    10^21 on writes an exponent: what is proved of the digits of a number
    carries the bound. *)
Definition toString (n : Z) : jsstring := js (pretty n).

Definition LF : N := 10.

(** ** JavaScript values

    The values a tool call can carry in its argument record, up to arrays:
    [undefined], [null], booleans, integers, strings and arrays of these.
    (Objects and fractional numbers are left out: the bridge only passes
    argument values on.)  [VNum z] is the number [z]; a number is held
    exactly, and written by [String] and [JSON.stringify] with all its
    digits, while it is below 2^53 in magnitude, and that is where
    [toString] and [serializeJSON] below follow them: see [exact]. *)

#[local] Set Warnings "-register-all".

Inductive JSVal :=
  | VUndef
  | VNull
  | VBool (b : bool)
  | VNum (z : Z)
  | VStr (s : jsstring)
  | VArr (l : list JSVal).

(** [String(n)] for the numbers the source converts *)
Definition String_ (n : Z) : jsstring := toString n.

(** *** [JSON.stringify] *)

Definition hexDigit (d : N) : N :=
  if d <? 10 then 48 + d else 87 + d.          (* '0'..'9', 'a'..'f' *)

(** [\uXXXX], lower-case hexadecimal *)
Definition unicodeEscape (c : N) : jsstring :=
  js "\u" ++ [hexDigit (c / 4096 mod 16); hexDigit (c / 256 mod 16);
              hexDigit (c / 16 mod 16); hexDigit (c mod 16)].

Definition isLeadingSurrogate (c : N) : bool := (55296 <=? c) && (c <=? 56319).
Definition isTrailingSurrogate (c : N) : bool := (56320 <=? c) && (c <=? 57343).

(** The body of [QuoteJSONString]: a well-formed surrogate pair is copied,
    a lone surrogate and a control character are escaped. *)
Fixpoint quoteJSONChars (s : jsstring) : jsstring :=
  match s with
  | [] => []
  | c :: s' =>
      if c =? 8 then js "\b" ++ quoteJSONChars s'
      else if c =? 9 then js "\t" ++ quoteJSONChars s'
      else if c =? 10 then js "\n" ++ quoteJSONChars s'
      else if c =? 12 then js "\f" ++ quoteJSONChars s'
      else if c =? 13 then js "\r" ++ quoteJSONChars s'
      else if c =? 34 then [92; 34] ++ quoteJSONChars s'
      else if c =? 92 then [92; 92] ++ quoteJSONChars s'
      else if c <? 32 then unicodeEscape c ++ quoteJSONChars s'
      else if isLeadingSurrogate c then
        match s' with
        | d :: s'' =>
            if isTrailingSurrogate d then c :: d :: quoteJSONChars s''
            else unicodeEscape c ++ quoteJSONChars s'
        | [] => unicodeEscape c
        end
      else if isTrailingSurrogate c then unicodeEscape c ++ quoteJSONChars s'
      else c :: quoteJSONChars s'
  end.

Definition quoteJSONString (s : jsstring) : jsstring :=
  [34] ++ quoteJSONChars s ++ [34].

(** [arr.join(sep)] on strings *)
Fixpoint join (sep : jsstring) (l : list jsstring) : jsstring :=
  match l with
  | [] => []
  | [x] => x
  | x :: l' => x ++ sep ++ join sep l'
  end.

(** Serialisation of a value in element position: [undefined] reads
    [null] there. *)
Fixpoint serializeJSON (v : JSVal) : jsstring :=
  match v with
  | VUndef | VNull => js "null"
  | VBool true => js "true"
  | VBool false => js "false"
  | VNum z => toString z
  | VStr s => quoteJSONString s
  | VArr l => js "[" ++ join (js ",") (List.map serializeJSON l) ++ js "]"
  end.

(** The numbers of a value are such as the program holds exactly and
    writes with all their digits. *)
Fixpoint exact (v : JSVal) : bool :=
  match v with
  | VNum z => (Z.abs z <? 2 ^ 53)%Z
  | VArr l => forallb exact l
  | _ => true
  end.

(** [JSON.stringify(v)]: [undefined] at the top stays [undefined]. *)
Definition JSON_stringify (v : JSVal) : JSVal :=
  match v with
  | VUndef => VUndef
  | _ => VStr (serializeJSON v)
  end.

Local Close Scope N_scope.

(** ** The JS [Map] holding the pending requests

    A [Map] iterates in insertion order and [set] on a present key keeps
    the key's position: an association list with these operations. *)

Module JSMap.

Fixpoint set {V : Type} (k : jsstring) (v : V) (m : list (jsstring * V))
    : list (jsstring * V) :=
  match m with
  | [] => [(k, v)]
  | (k', v') :: m' =>
      if bool_decide (k' = k) then (k, v) :: m' else (k', v') :: set k v m'
  end.

Fixpoint get {V : Type} (k : jsstring) (m : list (jsstring * V)) : option V :=
  match m with
  | [] => None
  | (k', v') :: m' => if bool_decide (k' = k) then Some v' else get k m'
  end.

Fixpoint delete {V : Type} (k : jsstring) (m : list (jsstring * V))
    : list (jsstring * V) :=
  match m with
  | [] => []
  | (k', v') :: m' =>
      if bool_decide (k' = k) then m' else (k', v') :: delete k m'
  end.

(** [Array.from(m.keys())] *)
Definition keys {V : Type} (m : list (jsstring * V)) : list jsstring := m.*1.

End JSMap.

(** ** Results, processes and the state *)

(** The MCP result [{ content: [{ text, type }] }] *)
Record ContentItem := { text : jsstring; type : jsstring }.
Record CallToolResult := { content : list ContentItem }.

(** A spawned child: the environment it was given, whether the bridge has
    called [kill()] on it, and whether its [close] event has been
    delivered.  A child is identified by its position in [children]. *)
Record ChildProcess := {
  env : gmap string JSVal;
  killed : bool;
  closed : bool
}.

(** What the bridge writes with [console.error] *)
Inductive Diagnostic :=
  | DStderr (message : jsstring)
  | DClosed (code : option Z)
  | DSpawnFailed.

(** [electronProcess] and [pendingRequests] are the module's two globals.
    The value stored under a request id is the [{ resolve, reject }] pair
    of a promise, identified here by the promise's number.  The rest is the
    world the globals refer to: the children spawned so far, the number of
    promises created so far, every call of a [resolve] function made so
    far (oldest first), the promises rejected because their executor threw
    (with the message of what was thrown), and the diagnostic channel. *)
Record State := {
  electronProcess : option nat;
  pendingRequests : list (jsstring * nat);
  children : list ChildProcess;
  promises : nat;
  resolutions : list (nat * CallToolResult);
  rejections : list (nat * jsstring);
  diagnostics : list Diagnostic
}.

Definition initial : State :=
  {| electronProcess := None; pendingRequests := []; children := [];
     promises := 0; resolutions := []; rejections := []; diagnostics := [] |}.

Definition set_electronProcess (v : option nat) (st : State) : State :=
  {| electronProcess := v;
     pendingRequests := pendingRequests st;
     children := children st;
     promises := promises st;
     resolutions := resolutions st;
     rejections := rejections st;
     diagnostics := diagnostics st |}.

Definition set_pendingRequests (v : list (jsstring * nat)) (st : State) : State :=
  {| electronProcess := electronProcess st;
     pendingRequests := v;
     children := children st;
     promises := promises st;
     resolutions := resolutions st;
     rejections := rejections st;
     diagnostics := diagnostics st |}.

Definition set_children (v : list ChildProcess) (st : State) : State :=
  {| electronProcess := electronProcess st;
     pendingRequests := pendingRequests st;
     children := v;
     promises := promises st;
     resolutions := resolutions st;
     rejections := rejections st;
     diagnostics := diagnostics st |}.

(** The message of the error a promise was rejected with.  A promise is
    rejected, if at all, by its executor, before any call of its [resolve]
    can be made. *)
Definition rejected (p : nat) (st : State) : option jsstring :=
  snd <$> List.find (λ r, bool_decide (r.1 = p)) (rejections st).

(** The value a promise is fulfilled with: the first [resolve] call wins,
    and none does once the promise is rejected. *)
Definition settled (p : nat) (st : State) : option CallToolResult :=
  match rejected p st with
  | Some _ => None
  | None => snd <$> List.find (λ r, bool_decide (r.1 = p)) (resolutions st)
  end.

(** [child.kill()] *)
Definition kill (p : nat) (st : State) : State :=
  set_children
    (alter (λ c, {| env := env c; killed := true; closed := closed c |}) p (children st))
    st.

(** [spawn(electronExecutablePath, [mainPath], { ..., env })].  The call
    either returns the new child or throws (an environment the system
    refuses: a NUL in a value, a size beyond the limit, ...); which of the
    two, and the message of what is thrown, is the runtime's to say:
    [failure].  A child that was created and cannot run is reported later,
    by its [error] event. *)
Definition spawn (e : gmap string JSVal) (failure : option jsstring) (st : State)
    : (jsstring + nat) * State :=
  match failure with
  | Some message => (inl message, st)
  | None =>
      (inr (length (children st)),
       set_children
         (children st ++ [{| env := e; killed := false; closed := false |}]) st)
  end.

(** [new Promise(...)]: the number of the new promise *)
Definition newPromise (st : State) : nat * State :=
  (promises st,
   {| electronProcess := electronProcess st;
      pendingRequests := pendingRequests st;
      children := children st;
      promises := S (promises st);
      resolutions := resolutions st;
      rejections := rejections st;
      diagnostics := diagnostics st |}).

(** [resolve(value)] of promise [p] *)
Definition resolve (p : nat) (value : CallToolResult) (st : State) : State :=
  {| electronProcess := electronProcess st;
     pendingRequests := pendingRequests st;
     children := children st;
     promises := promises st;
     resolutions := resolutions st ++ [(p, value)];
     rejections := rejections st;
     diagnostics := diagnostics st |}.

Definition console_error (d : Diagnostic) (st : State) : State :=
  {| electronProcess := electronProcess st;
     pendingRequests := pendingRequests st;
     children := children st;
     promises := promises st;
     resolutions := resolutions st;
     rejections := rejections st;
     diagnostics := diagnostics st ++ [d] |}.

(** The executor of promise [p] threw: the promise is rejected. *)
Definition reject (p : nat) (message : jsstring) (st : State) : State :=
  {| electronProcess := electronProcess st;
     pendingRequests := pendingRequests st;
     children := children st;
     promises := promises st;
     resolutions := resolutions st;
     rejections := rejections st ++ [(p, message)];
     diagnostics := diagnostics st |}.

(** ** src/initial_tools.js *)

Record InputSchema := { properties : list string; required : list string }.
Record Tool := { name : jsstring; inputSchema : InputSchema }.

Definition initialTools : list Tool :=
  [ {| name := js "ask_user";
       inputSchema := {| properties := ["projectName"; "message"; "predefinedOptions"];
                         required := ["projectName"; "message"] |} |};
    {| name := js "request_user_confirmation";
       inputSchema := {| properties := ["projectName"; "summary"];
                         required := ["projectName"; "summary"] |} |} ]%string.

(** ** src/index.js *)

(** How the handler of a tool call completes when it is run: with an
    exception, or suspended on a promise.  [TypeError] is what destructuring
    [undefined] throws, [Error message] an error the bridge makes with
    [new Error(message)], and [SpawnFailure message] the error object
    [spawn] threw. *)
Inductive JSError :=
  | TypeError
  | Error (message : jsstring)
  | SpawnFailure (message : jsstring).

Inductive Completion :=
  | Throw (e : JSError)
  | Await (promise : nat).

(** What the runtime can deliver to the bridge.  [now] is the value
    [Date.now()] has during the call and [failure] what [spawn] does if the
    call gets that far; [data] is [data.toString()]. *)
Inductive Event :=
  | CallTool (tool : jsstring) (args : option (gmap string JSVal)) (now : Z)
      (failure : option jsstring)
  | StdoutData (child : nat) (data : jsstring)
  | StderrData (child : nat) (data : jsstring)
  | Close (child : nat) (code : option Z)
  | SpawnError (child : nat).

(** ** Reading a result

    The three results [handleUserResponse] resolves with, and the outcome a
    caller reads from the text of a result. *)

Definition timeoutNotice : CallToolResult :=
  {| content :=
       [{| text := js "User did not reply: Timeout occurred. Retry calling the function.";
           type := js "text" |}] |}.

Definition emptyNotice : CallToolResult :=
  {| content :=
       [{| text := js "User replied with empty input. Retry calling the function.";
           type := js "text" |}] |}.

Definition reply (userResponse : jsstring) : CallToolResult :=
  {| content := [{| text := js "User replied: " ++ userResponse; type := js "text" |}] |}.

(** The text of a one-item result *)
Definition text_of (r : CallToolResult) : jsstring :=
  match content r with
  | item :: _ => text item
  | [] => []
  end.

Inductive Outcome :=
  | TimedOut
  | EmptyReply
  | Replied (userResponse : jsstring).

Definition outcomeOf (r : CallToolResult) : option Outcome :=
  match content r with
  | [item] =>
      if bool_decide (text item = text_of timeoutNotice) then Some TimedOut
      else if bool_decide (text item = text_of emptyNotice) then Some EmptyReply
      else if startsWith (text item) (js "User replied: ") then
        Some (Replied (substring (text item) (length (js "User replied: "))))
      else None
  | _ => None
  end.

(** The result [handleUserResponse] turns a response into *)
Definition resultFor (userResponse : jsstring) : CallToolResult :=
  if bool_decide (userResponse = js "TIMEOUT") then timeoutNotice
  else if negb (truthy userResponse) || bool_decide (trim userResponse = []) then emptyNotice
  else reply userResponse.

(** A parameter declared with the default [= []] *)
Definition orEmptyArray (v : JSVal) : JSVal :=
  match v with VUndef => VArr [] | _ => v end.

(** Reading a property in a destructuring pattern *)
Definition prop (args : gmap string JSVal) (k : string) : JSVal :=
  default VUndef (args !! k).

(** ** The command line

    [parseInt(values.timeout, 10) || 60], where [values.timeout] is the
    string [parseArgs] found for the option (['60'] when it is absent).
    [parseInt] skips leading white space, takes a sign, and reads the
    longest run of decimal digits; without a digit the result is [NaN],
    here [NaN].  A number below 2^53 in magnitude is held exactly and is
    [Exact] here; from 2^53 on the program holds the nearest number it can
    represent, or [Infinity]: a number that is not zero, and that is not
    followed here ([Rounded]). *)

Definition isDigit (c : N) : bool := ((48 <=? c) && (c <=? 57))%N.

(** The number read from the leading digits of [s], continuing [acc] *)
Fixpoint digitsValue (s : jsstring) (acc : Z) : Z :=
  match s with
  | c :: s' =>
      if isDigit c then digitsValue s' (10 * acc + Z.of_N (c - 48))%Z else acc
  | [] => acc
  end.

Inductive Parsed :=
  | NaN
  | Exact (n : Z)
  | Rounded.

Definition parseInt (s : jsstring) : Parsed :=
  let s := trimStart s in
  let '(negative, s) :=
    match s with
    | 45%N :: s' => (true, s')
    | 43%N :: s' => (false, s')
    | _ => (false, s)
    end in
  match s with
  | c :: _ =>
      if isDigit c then
        let magnitude := digitsValue s 0 in
        if (magnitude <? 2 ^ 53)%Z
        then Exact ((if negative then -1 else 1) * magnitude)%Z
        else Rounded
      else NaN
  | [] => NaN
  end.

(** [NaN] and zero are falsy.  The result is [None] where the program
    holds a rounded number. *)
Definition dialogTimeoutOf (timeout : jsstring) : option Z :=
  match parseInt timeout with
  | NaN => Some 60%Z
  | Exact n => Some (if (n =? 0)%Z then 60%Z else n)
  | Rounded => None
  end.

Section Bridge.

(** [dialogTimeout], from the command line, and [process.env].  The first
    two arguments of [startElectronGUIWithData] are values as the caller
    sent them; the function returns the message of the error it threw, if
    it threw. *)
Variable dialogTimeout : Z.
Variable process_env : gmap string JSVal.

Definition startElectronGUIWithData (projectName message : JSVal)
    (predefinedOptions : JSVal) (timeoutOverride textAreaHeight : option Z)
    (failure : option jsstring) (st : State) : option jsstring * State :=
  let predefinedOptions := orEmptyArray predefinedOptions in
  let st :=
    match electronProcess st with
    | Some p => set_electronProcess None (kill p st)
    | None => st
    end in
  let timeoutToUse :=
    match timeoutOverride with Some t => t | None => dialogTimeout end in
  let textAreaHeightValue :=
    match textAreaHeight with Some h => String_ h | None => [] end in
  let env : gmap string JSVal :=
    <["DIALOG_TEXTAREA_HEIGHT" := VStr textAreaHeightValue]> (
    <["NODE_ENV" := VStr (js "production")]> (
    <["ELECTRON_IS_DEV" := VStr (js "0")]> (
    <["ELECTRON_RUN_AS_NODE" := VUndef]> (
    <["CURSOR_CWD" := VUndef]> (
    <["CURSOR_PID" := VUndef]> (
    <["VSCODE_CWD" := VUndef]> (
    <["VSCODE_PID" := VUndef]> (
    <["DIALOG_TIMEOUT" := VStr (String_ timeoutToUse)]> (
    <["DIALOG_PREDEFINED_OPTIONS" := JSON_stringify predefinedOptions]> (
    <["DIALOG_MESSAGE" := message]> (
    <["DIALOG_PROJECT_NAME" := projectName]> process_env))))))))))) in
  match spawn env failure st with
  | (inl message, st) => (Some message, st)
  | (inr child, st) => (None, set_electronProcess (Some child) st)
  end.

Definition handleUserResponse (userResponse : jsstring) (st : State) : State :=
  match JSMap.keys (pendingRequests st) with
  | requestId :: _ =>
      if truthy requestId then
        match JSMap.get requestId (pendingRequests st) with
        | Some resolve_ =>
            let st :=
              set_pendingRequests (JSMap.delete requestId (pendingRequests st)) st in
            if bool_decide (userResponse = js "TIMEOUT") then
              resolve resolve_
                {| content :=
                     [{| text := js "User did not reply: Timeout occurred. Retry calling the function.";
                         type := js "text" |}] |} st
            else if negb (truthy userResponse) || bool_decide (trim userResponse = []) then
              resolve resolve_
                {| content :=
                     [{| text := js "User replied with empty input. Retry calling the function.";
                         type := js "text" |}] |} st
            else
              resolve resolve_
                {| content :=
                     [{| text := js "User replied: " ++ userResponse;
                         type := js "text" |}] |} st
        | None => st      (* not reached: the key was just read off the map *)
        end
      else st
  | [] => st
  end.

(** The body of the loop over the lines of a chunk *)
Definition processLine (st : State) (line : jsstring) : State :=
  let trimmedLine := trim line in
  if bool_decide (trimmedLine = js "DIALOG_CLOSED") then st
  else if startsWith trimmedLine (js "TEXT_FROM_RENDERER:") then
    let userResponse :=
      trim (substring trimmedLine (length (js "TEXT_FROM_RENDERER:"))) in
    handleUserResponse userResponse st
  else if bool_decide (trimmedLine = js "DIALOG_TIMEOUT") then
    handleUserResponse (js "TIMEOUT") st
  else st.

(** [electronProcess.stdout.on('data', ...)] *)
Definition onStdoutData (data : jsstring) (st : State) : State :=
  let message := trim data in
  let lines := split LF message in
  foldl processLine st lines.

(** [electronProcess.stderr.on('data', ...)] *)
Definition onStderrData (data : jsstring) (st : State) : State :=
  let message := trim data in
  console_error (DStderr message) st.

(** [electronProcess.on('close', ...)] *)
Definition onClose (code : option Z) (st : State) : State :=
  let st := console_error (DClosed code) st in
  set_electronProcess None st.

(** [electronProcess.on('error', ...)] *)
Definition onError (st : State) : State := console_error DSpawnFailed st.

(** What the executor of a promise does to it when it throws: the only
    thing thrown there is the error of [spawn], given by its message. *)
Definition settleExecutor (promise : nat) (thrown : option jsstring) (st : State)
    : State :=
  match thrown with
  | Some message => reject promise message st
  | None => st
  end.

(** The promise the function returns, and the state its executor leaves *)
Definition showDialog (projectName message predefinedOptions : JSVal)
    (now : Z) (failure : option jsstring) (st : State) : nat * State :=
  let predefinedOptions := orEmptyArray predefinedOptions in
  let '(promise, st) := newPromise st in
  let requestId := toString now in
  let st := set_pendingRequests (JSMap.set requestId promise (pendingRequests st)) st in
  let '(thrown, st) :=
    startElectronGUIWithData projectName message predefinedOptions None None failure st in
  (promise, settleExecutor promise thrown st).

(** The [CallToolRequestSchema] handler, run up to its first suspension.
    Destructuring an absent argument record throws.  Awaiting a promise
    that its executor left rejected throws the reason: [ask_user] catches
    it and throws an error of its own, [request_user_confirmation] hands
    the rejected promise back as it is. *)
Definition callTool (name : jsstring) (args : option (gmap string JSVal))
    (now : Z) (failure : option jsstring) (st : State) : Completion * State :=
  if bool_decide (name = js "ask_user") then
    match args with
    | None => (Throw TypeError, st)
    | Some args =>
        let projectName := prop args "projectName" in
        let message := prop args "message" in
        let predefinedOptions := prop args "predefinedOptions" in
        let '(result, st) :=
          showDialog projectName message predefinedOptions now failure st in
        match rejected result st with
        | Some message => (Throw (Error (js "Failed to show dialog: " ++ message)), st)
        | None => (Await result, st)
        end
    end
  else if bool_decide (name = js "request_user_confirmation") then
    match args with
    | None => (Throw TypeError, st)
    | Some args =>
        let projectName := prop args "projectName" in
        let summary := prop args "summary" in
        let '(promise, st) := newPromise st in
        let requestId := toString now in
        let st := set_pendingRequests (JSMap.set requestId promise (pendingRequests st)) st in
        let '(thrown, st) :=
          startElectronGUIWithData projectName summary (VArr []) (Some 0%Z) (Some 300%Z)
            failure st in
        let st := settleExecutor promise thrown st in
        match rejected promise st with
        | Some message => (Throw (SpawnFailure message), st)
        | None => (Await promise, st)
        end
    end
  else (Throw (Error (js "Unknown tool: " ++ name)), st).

(** ** The event loop *)

Definition live (child : nat) (st : State) : bool :=
  match children st !! child with
  | Some c => negb (closed c)
  | None => false
  end.

(** An event of a child needs the child to have been spawned; its
    streams deliver nothing after [close], and [close] comes once. *)
Definition enabled (ev : Event) (st : State) : bool :=
  match ev with
  | CallTool _ _ _ _ => true
  | StdoutData child _ | StderrData child _ | Close child _ => live child st
  | SpawnError child => bool_decide (is_Some (children st !! child))
  end.

Definition markClosed (child : nat) (st : State) : State :=
  set_children
    (alter (λ c, {| env := env c; killed := killed c; closed := true |}) child (children st))
    st.

Definition step (ev : Event) (st : State) : State :=
  match ev with
  | CallTool tool args now failure => (callTool tool args now failure st).2
  | StdoutData _ data => onStdoutData data st
  | StderrData _ data => onStderrData data st
  | Close child code => onClose code (markClosed child st)
  | SpawnError _ => onError st
  end.

Definition run (evs : list Event) (st : State) : State :=
  foldl (λ st ev, step ev st) st evs.

(** All the events of a trace are enabled when their turn comes. *)
Fixpoint runnable (evs : list Event) (st : State) : bool :=
  match evs with
  | [] => true
  | ev :: evs' => enabled ev st && runnable evs' (step ev st)
  end.

(** The [SIGINT] and [SIGTERM] handlers: the tracked child is killed and
    the bridge exits, so none of the events above follows. *)
Definition onSignal (st : State) : State :=
  match electronProcess st with
  | Some p => kill p st
  | None => st
  end.

Inductive reachable : State → Prop :=
  | reachable_initial : reachable initial
  | reachable_step st ev :
      reachable st → enabled ev st = true → reachable (step ev st).

(** ** Sessions, and statements of the specification about them

    A tool call whose [spawn] returns starts a session: the promise of the
    call, whose continuation is stored in the table, and the child, whose
    output stream is delivered by [StdoutData]. *)

(** The children that were neither killed nor closed *)
Definition isAlive (st : State) (n : nat) : bool :=
  match children st !! n with
  | Some c => negb (killed c) && negb (closed c)
  | None => false
  end.

Definition alive (st : State) : list nat :=
  List.filter (isAlive st) (seq 0 (length (children st))).

(** "At most one record is pending and at most one process is alive, and
    while there are both they are one to one" *)
Definition singleSession (st : State) : Prop :=
  length (pendingRequests st) ≤ 1 ∧
  length (alive st) ≤ 1 ∧
  (pendingRequests st ≠ [] → alive st ≠ [] →
   length (pendingRequests st) = length (alive st)).

(** A call misses a field its tool's schema requires. *)
Definition missesRequired (name_ : jsstring) (args : option (gmap string JSVal)) : Prop :=
  ∃ tool field,
    tool ∈ initialTools ∧ name tool = name_ ∧
    field ∈ required (inputSchema tool) ∧
    match args with Some args => prop args field | None => VUndef end = VUndef.

(** "A call that misses a required field fails at once and spawns
    nothing" *)
Definition validated (name_ : jsstring) (args : option (gmap string JSVal))
    (now : Z) (failure : option jsstring) (st : State) : Prop :=
  missesRequired name_ args →
  (∃ e, (callTool name_ args now failure st).1 = Throw e) ∧
  children (callTool name_ args now failure st).2 = children st.

(** "Every call of [request_user_confirmation] spawns a child with the
    timeout 0, the height 300 and no options" *)
Definition confirmationSpawns (args : option (gmap string JSVal)) (now : Z)
    (failure : option jsstring) (st : State) : Prop :=
  let st' := (callTool (js "request_user_confirmation") args now failure st).2 in
  ∃ old c,
    children st' = old ++ [c] ∧
    length old = length (children st) ∧
    env c !! "DIALOG_TIMEOUT" = Some (VStr (js "0")) ∧
    env c !! "DIALOG_TEXTAREA_HEIGHT" = Some (VStr (js "300")) ∧
    env c !! "DIALOG_PREDEFINED_OPTIONS" = Some (VStr (js "[]")).

(** A line that ends a wait: a reply or the timeout marker *)
Definition terminal (line : jsstring) : bool :=
  startsWith (trim line) (js "TEXT_FROM_RENDERER:")
  || bool_decide (trim line = js "DIALOG_TIMEOUT").

(** A chunk none of whose lines ends a wait *)
Definition quiet (data : jsstring) : Prop :=
  Forall (λ l, terminal l = false) (split LF (trim data)).

(** A chunk with the timeout marker as one of its lines, after lines
    that end no wait and before any lines at all *)
Definition timesOut (data : jsstring) : Prop :=
  ∃ before line after,
    split LF (trim data) = before ++ [line] ++ after ∧
    Forall (λ l, terminal l = false) before ∧
    trim line = js "DIALOG_TIMEOUT".

(** "When the stream of a session emits the line [DIALOG_TIMEOUT] while
    the record of the session is pending, whatever lines that end no wait
    came before, the caller of the session gets the timeout outcome": the
    session is the one a call starts in [st0], [between] is what happens
    until its stream speaks, and [chunks] is how the stream reaches the
    bridge from then on, its text being their concatenation. *)
Definition timeoutReachesCaller (st0 : State) (tool : jsstring)
    (args : option (gmap string JSVal)) (now : Z) (between : list Event)
    (chunks : list jsstring) : Prop :=
  reachable st0 →
  ∀ p c st1,
    callTool tool args now None st0 = (Await p, st1) →
    electronProcess st1 = Some c →
    runnable between st1 = true →
    p ∈ (pendingRequests (run between st1)).*2 →
    live c (run between st1) = true →
    timesOut (concat chunks) →
    ∃ r, settled p (run (StdoutData c <$> chunks) (run between st1)) = Some r ∧
         outcomeOf r = Some TimedOut.

(** What holds of the state between any two callbacks *)
Record Inv (st : State) : Prop := {
  inv_keys_nodup : NoDup (pendingRequests st).*1;
  inv_keys_truthy : Forall (λ k, truthy k = true) (pendingRequests st).*1;
  inv_vals_nodup : NoDup (pendingRequests st).*2;
  inv_vals_fresh : ∀ p, p ∈ (pendingRequests st).*2 →
                     p < promises st ∧ p ∉ (resolutions st).*1;
  inv_res_bound : ∀ p, p ∈ (resolutions st).*1 → p < promises st;
  inv_res_nodup : NoDup (resolutions st).*1;
  inv_children : length (children st) ≤ promises st;
  inv_tracked : ∀ n, electronProcess st = Some n →
                  S n = length (children st) ∧
                  ∃ c, children st !! n = Some c ∧ killed c = false ∧ closed c = false;
  inv_rej_bound : ∀ p, p ∈ (rejections st).*1 → p < promises st
}.

(** Calls of [ask_user] made at different times, whose [spawn] returns *)
Definition askFirst : Event :=
  CallTool (js "ask_user")
    (Some {[ "projectName" := VStr (js "proj"); "message" := VStr (js "first?") ]}) 1000
    None.

Definition askSecond : Event :=
  CallTool (js "ask_user")
    (Some {[ "projectName" := VStr (js "proj"); "message" := VStr (js "second?") ]}) 2000
    None.

Definition askThird : Event :=
  CallTool (js "ask_user")
    (Some {[ "projectName" := VStr (js "proj"); "message" := VStr (js "third?") ]}) 3000
    None.

(** * Properties *)

(** ** Strings *)

Lemma js_nil_inv s : js s = [] → s = ""%string.
Proof. by destruct s. Qed.

Lemma pretty_N_go_nonempty x s : s ≠ ""%string → pretty_N_go x s ≠ ""%string.
Proof.
  revert s. induction (N.lt_wf_0 x) as [x _ IH]; intros s Hs.
  destruct (decide (x = 0%N)) as [->|Hx].
  - by rewrite pretty_N_go_0.
  - rewrite pretty_N_go_step by lia. apply IH; [|done].
    apply N.div_lt; lia.
Qed.

Lemma pretty_N_nonempty (x : N) : pretty x ≠ ""%string.
Proof.
  unfold pretty, pretty_N. case_decide; [done|].
  rewrite pretty_N_go_step by lia. by apply pretty_N_go_nonempty.
Qed.

Lemma toString_truthy n : truthy (toString n) = true.
Proof.
  unfold toString.
  destruct (js (pretty n)) eqn:E; [|done].
  apply js_nil_inv in E. destruct n as [|x|x]; [done|..].
  - by destruct (pretty_N_nonempty (N.pos x)).
  - done.
Qed.

Lemma trimEnd_nil_iff s : trimEnd s = [] ↔ forallb isWhiteSpace s = true.
Proof.
  induction s as [|c s IH]; simpl; [done|].
  destruct (trimEnd s) eqn:E, (isWhiteSpace c); simpl; split; try done.
  - intros _. by apply IH.
  - intros H. apply IH in H. done.
Qed.

Lemma trimEnd_app p s : trimEnd s ≠ [] → trimEnd (p ++ s) = p ++ trimEnd s.
Proof.
  intros Hs. induction p as [|c p IH]; simpl; [done|].
  rewrite IH. by destruct (p ++ trimEnd s) eqn:E; [apply app_eq_nil in E as [_ ?]|].
Qed.

Lemma trimEnd_app_blank p s : trimEnd s = [] → trimEnd (p ++ s) = trimEnd p.
Proof. intros Hs. induction p as [|c p IH]; simpl; [done|]. by rewrite IH. Qed.

Lemma trimEnd_idemp s : trimEnd (trimEnd s) = trimEnd s.
Proof.
  induction s as [|c s IH]; simpl; [done|].
  destruct (trimEnd s) as [|d t] eqn:E.
  - destruct (isWhiteSpace c) eqn:Ec; simpl; [done|]. by rewrite Ec.
  - simpl in *. by rewrite IH.
Qed.

Lemma trimStart_trimEnd s : trimStart (trimEnd s) = trimEnd (trimStart s).
Proof.
  induction s as [|c s IH]; simpl; [done|].
  destruct (isWhiteSpace c) eqn:Ec.
  - rewrite <-IH. destruct (trimEnd s); simpl; by rewrite ?Ec.
  - simpl. destruct (trimEnd s); simpl; by rewrite Ec.
Qed.

Lemma trim_trimEnd s : trim (trimEnd s) = trim s.
Proof. unfold trim. by rewrite trimStart_trimEnd, trimEnd_idemp. Qed.

Lemma trimStart_blank s : forallb isWhiteSpace s = true → trimStart s = [].
Proof.
  induction s as [|c s IH]; simpl; [done|].
  destruct (isWhiteSpace c); simpl; [done|discriminate].
Qed.

Lemma trim_blank s : forallb isWhiteSpace s = true → trim s = [].
Proof. intros H. unfold trim. by rewrite trimStart_blank. Qed.

(** The line [TEXT_FROM_RENDERER:<payload>], trimmed: the marker stays and
    the payload loses its trailing blanks. *)
Lemma trim_text_line payload :
  trim (js "TEXT_FROM_RENDERER:" ++ payload)
  = js "TEXT_FROM_RENDERER:" ++ trimEnd payload.
Proof.
  unfold trim. change (trimStart (js "TEXT_FROM_RENDERER:" ++ payload))
    with (js "TEXT_FROM_RENDERER:" ++ payload).
  destruct (trimEnd payload) as [|c t] eqn:E.
  - rewrite trimEnd_app_blank by done. reflexivity.
  - rewrite trimEnd_app; rewrite E; [reflexivity|discriminate].
Qed.

Lemma startsWith_app p s : startsWith (p ++ s) p = true.
Proof. induction p as [|c p IH]; simpl; [done|]. by rewrite N.eqb_refl, IH. Qed.

Lemma substring_app p s : substring (p ++ s) (length p) = s.
Proof. unfold substring. by rewrite drop_app_length. Qed.

(** ** The pending-request map *)

Lemma JSMap_set_keys {V} k (v : V) m k' :
  k' ∈ (JSMap.set k v m).*1 → k' = k ∨ k' ∈ m.*1.
Proof.
  induction m as [|[k0 v0] m IH]; simpl.
  - rewrite list_elem_of_singleton. auto.
  - case_bool_decide; simpl; rewrite !elem_of_cons; intuition auto.
Qed.

Lemma JSMap_set_vals {V} k (v : V) m v' :
  v' ∈ (JSMap.set k v m).*2 → v' = v ∨ v' ∈ m.*2.
Proof.
  induction m as [|[k0 v0] m IH]; simpl.
  - rewrite list_elem_of_singleton. auto.
  - case_bool_decide; simpl; rewrite !elem_of_cons; intuition auto.
Qed.

Lemma JSMap_set_keys_nodup {V} k (v : V) m :
  NoDup m.*1 → NoDup (JSMap.set k v m).*1.
Proof.
  induction m as [|[k0 v0] m IH]; simpl; intros Hm.
  - apply NoDup_singleton.
  - apply NoDup_cons in Hm as [Hk0 Hm].
    case_bool_decide; simpl; apply NoDup_cons.
    + by subst.
    + split; [|by apply IH].
      intros [->|?]%JSMap_set_keys; done.
Qed.

Lemma JSMap_set_vals_nodup {V} k (v : V) m :
  v ∉ m.*2 → NoDup m.*2 → NoDup (JSMap.set k v m).*2.
Proof.
  induction m as [|[k0 v0] m IH]; simpl; intros Hv Hm.
  - apply NoDup_singleton.
  - apply NoDup_cons in Hm as [Hv0 Hm].
    apply not_elem_of_cons in Hv as [Hne Hv].
    case_bool_decide; simpl; apply NoDup_cons.
    + done.
    + split; [|by apply IH].
      intros [->|?]%JSMap_set_vals; done.
Qed.

Lemma JSMap_set_truthy {V} k (v : V) m :
  truthy k = true →
  Forall (λ k, truthy k = true) m.*1 →
  Forall (λ k, truthy k = true) (JSMap.set k v m).*1.
Proof.
  intros Hk Hm. apply Forall_forall. intros k' [->|Hk']%JSMap_set_keys; [done|].
  by eapply Forall_forall in Hm.
Qed.

(** ** One resolution per terminal event *)

Lemma handleUserResponse_none userResponse st :
  pendingRequests st = [] → handleUserResponse userResponse st = st.
Proof. unfold handleUserResponse. by intros ->. Qed.

(** With a record in the table, the oldest one is taken out and its
    promise resolved. *)
Lemma handleUserResponse_oldest userResponse st requestId p rest :
  pendingRequests st = (requestId, p) :: rest →
  truthy requestId = true →
  handleUserResponse userResponse st
  = resolve p (resultFor userResponse) (set_pendingRequests rest st).
Proof.
  intros Hpend Hk. unfold handleUserResponse, resultFor. rewrite Hpend. simpl.
  rewrite Hk, bool_decide_eq_true_2 by done.
  by repeat case_match.
Qed.

Lemma processLine_closed st line :
  trim line = js "DIALOG_CLOSED" → processLine st line = st.
Proof. intros H. unfold processLine. by rewrite H. Qed.

Lemma processLine_text st payload :
  processLine st (js "TEXT_FROM_RENDERER:" ++ payload)
  = handleUserResponse (trim payload) st.
Proof.
  unfold processLine. rewrite trim_text_line.
  rewrite bool_decide_eq_false_2 by (intros H; vm_compute in H; discriminate H).
  rewrite startsWith_app, substring_app. by rewrite trim_trimEnd.
Qed.

Lemma processLine_timeout st line :
  trim line = js "DIALOG_TIMEOUT" →
  processLine st line = handleUserResponse (js "TIMEOUT") st.
Proof. intros H. unfold processLine. by rewrite H. Qed.

Lemma processLine_nonterminal st line :
  terminal line = false → processLine st line = st.
Proof.
  unfold terminal, processLine. intros [H1 H2]%orb_false_iff.
  cbv zeta. rewrite H1, H2. by case_match.
Qed.

Lemma foldl_processLine_nonterminal st lines :
  Forall (λ l, terminal l = false) lines → foldl processLine st lines = st.
Proof.
  induction 1 as [|l lines Hl _ IH]; simpl; [done|].
  by rewrite processLine_nonterminal.
Qed.

(** ** Reading the three results apart *)

Lemma outcomeOf_timeoutNotice : outcomeOf timeoutNotice = Some TimedOut.
Proof. reflexivity. Qed.

Lemma outcomeOf_emptyNotice : outcomeOf emptyNotice = Some EmptyReply.
Proof. reflexivity. Qed.

Lemma outcomeOf_reply userResponse :
  outcomeOf (reply userResponse) = Some (Replied userResponse).
Proof.
  unfold outcomeOf, reply. cbn [content text].
  rewrite !bool_decide_eq_false_2 by (intros H; vm_compute in H; discriminate H).
  by rewrite startsWith_app, substring_app.
Qed.
(** ** The invariant *)

Lemma Inv_initial : Inv initial.
Proof.
  split; simpl; try done.
  - apply NoDup_nil_2.
  - apply NoDup_nil_2.
  - intros p Hp. by apply elem_of_nil in Hp.
  - intros p Hp. by apply elem_of_nil in Hp.
  - apply NoDup_nil_2.
  - intros p Hp. by apply elem_of_nil in Hp.
Qed.

Lemma Inv_handleUserResponse userResponse st :
  Inv st → Inv (handleUserResponse userResponse st).
Proof.
  intros HI. destruct (pendingRequests st) as [|[k p] rest] eqn:Hpend.
  { by rewrite handleUserResponse_none. }
  destruct HI as [Hkn Hkt Hvn Hvf Hrb Hrn Hs Ht Hj].
  rewrite Hpend in *. simpl in Hkn, Hkt, Hvn, Hvf.
  apply NoDup_cons in Hkn as [_ Hkn]. apply Forall_cons in Hkt as [Hk Hkt].
  apply NoDup_cons in Hvn as [Hp Hvn].
  rewrite (handleUserResponse_oldest _ _ _ _ _ Hpend Hk).
  destruct (Hvf p) as [Hpb Hpr]; [left|].
  split; simpl; try done.
  - intros q Hq. destruct (Hvf q) as [? ?]; [by right|]. split; [done|].
    rewrite fmap_app. simpl.
    intros [?|Hq']%elem_of_app; [done|].
    apply list_elem_of_singleton in Hq' as ->. done.
  - intros q. rewrite fmap_app. simpl.
    intros [?|Hq]%elem_of_app; [auto|].
    by apply list_elem_of_singleton in Hq as ->.
  - rewrite fmap_app. simpl. apply NoDup_app. split_and!; [done| |apply NoDup_singleton].
    intros q Hq Hq'. by apply list_elem_of_singleton in Hq' as ->.
Qed.

Lemma Inv_processLine st line : Inv st → Inv (processLine st line).
Proof.
  intros HI. unfold processLine. cbv zeta.
  repeat case_match; auto using Inv_handleUserResponse.
Qed.

Lemma Inv_onStdoutData data st : Inv st → Inv (onStdoutData data st).
Proof.
  unfold onStdoutData. cbv zeta. generalize (split LF (trim data)) as lines.
  intros lines. revert st.
  induction lines as [|l lines IH]; simpl; auto using Inv_processLine.
Qed.

Lemma Inv_console_error d st : Inv st → Inv (console_error d st).
Proof. by intros []. Qed.

Lemma Inv_untrack st : Inv st → Inv (set_electronProcess None st).
Proof. intros []. split; simpl; done. Qed.

Lemma Inv_markClosed child st :
  Inv st → Inv (set_electronProcess None (markClosed child st)).
Proof. intros []. split; simpl; try done. by rewrite length_alter. Qed.

Lemma Inv_kill st :
  Inv st →
  Inv (match electronProcess st with
       | Some p => set_electronProcess None (kill p st)
       | None => st
       end).
Proof.
  intros HI. destruct (electronProcess st) eqn:E; [|done].
  destruct HI. split; simpl; try done. by rewrite length_alter.
Qed.

(** Storing the continuation of a fresh promise *)
Lemma Inv_register now st :
  Inv st →
  let st' := set_pendingRequests
               (JSMap.set (toString now) (promises st) (pendingRequests st))
               (newPromise st).2 in
  NoDup (pendingRequests st').*1 ∧
  Forall (λ k, truthy k = true) (pendingRequests st').*1 ∧
  NoDup (pendingRequests st').*2 ∧
  (∀ p, p ∈ (pendingRequests st').*2 → p < promises st' ∧ p ∉ (resolutions st').*1) ∧
  (∀ p, p ∈ (resolutions st').*1 → p < promises st') ∧
  NoDup (resolutions st').*1.
Proof.
  intros [Hkn Hkt Hvn Hvf Hrb Hrn Hs Ht Hj]. simpl.
  assert (promises st ∉ (pendingRequests st).*2) as Hfresh.
  { intros [? _]%Hvf. lia. }
  split_and!.
  - by apply JSMap_set_keys_nodup.
  - apply JSMap_set_truthy; [apply toString_truthy|done].
  - by apply JSMap_set_vals_nodup.
  - intros p [->|Hp]%JSMap_set_vals.
    + split; [lia|]. intros ?%Hrb. lia.
    + destruct (Hvf p Hp). split; [lia|done].
  - intros p ?%Hrb. lia.
  - done.
Qed.

Lemma Inv_start projectName message predefinedOptions timeoutOverride textAreaHeight
    now failure st :
  Inv st →
  let r := startElectronGUIWithData projectName message predefinedOptions
             timeoutOverride textAreaHeight failure
             (set_pendingRequests
                (JSMap.set (toString now) (promises st) (pendingRequests st))
                (newPromise st).2) in
  Inv (settleExecutor (promises st) r.1 r.2).
Proof.
  intros HI. pose proof (Inv_register now st HI) as (?&?&?&?&?&?).
  pose proof (inv_children _ HI) as Hs. pose proof (inv_rej_bound _ HI) as Hj.
  unfold startElectronGUIWithData. cbv zeta. simpl electronProcess.
  assert (∀ q m', q ∈ (rejections st ++ [(promises st, m')]).*1 → q < S (promises st))
    as Hrej.
  { intros q m' ([q' m''] & -> & [Hq|Hq]%elem_of_app)%list_elem_of_fmap; simpl.
    - assert (q' < promises st); [|lia].
      apply Hj, list_elem_of_fmap. by exists (q', m'').
    - apply list_elem_of_singleton in Hq as [= -> _]. lia. }
  assert (∀ q, q ∈ (rejections st).*1 → q < S (promises st)) as Hrej'.
  { intros q ?%Hj. lia. }
  destruct failure as [message'|], (electronProcess st) as [p|] eqn:He; simpl.
  - split; simpl; try done; [rewrite length_alter; lia|intros q; apply Hrej].
  - split; simpl; rewrite ?He; try done; [lia|intros q; apply Hrej].
  - split; simpl; try done.
    + rewrite length_app, length_alter. simpl. lia.
    + intros n [= <-]. rewrite length_app, length_alter. simpl. split; [lia|].
      eexists. split.
      { rewrite lookup_app_r by (rewrite length_alter; lia).
        by rewrite length_alter, Nat.sub_diag. }
      done.
  - split; simpl; try done.
    + rewrite length_app. simpl. lia.
    + intros n [= <-]. rewrite length_app. simpl. split; [lia|].
      eexists. split.
      { rewrite lookup_app_r by lia. by rewrite Nat.sub_diag. }
      done.
Qed.

(** The two tools, run on an argument record: the state they leave *)
Lemma callTool_ask_user a now failure st :
  (callTool (js "ask_user") (Some a) now failure st).2
  = let r := startElectronGUIWithData (prop a "projectName") (prop a "message")
               (orEmptyArray (prop a "predefinedOptions")) None None failure
               (set_pendingRequests
                  (JSMap.set (toString now) (promises st) (pendingRequests st))
                  (newPromise st).2) in
    settleExecutor (promises st) r.1 r.2.
Proof.
  unfold callTool, showDialog. rewrite bool_decide_eq_true_2 by done.
  cbv zeta. cbn [newPromise fst snd].
  destruct (startElectronGUIWithData _ _ _ _ _ _ _) as [thrown st'].
  cbn [fst snd]. by destruct (rejected _ _).
Qed.

Lemma callTool_request_user_confirmation a now failure st :
  (callTool (js "request_user_confirmation") (Some a) now failure st).2
  = let r := startElectronGUIWithData (prop a "projectName") (prop a "summary")
               (VArr []) (Some 0%Z) (Some 300%Z) failure
               (set_pendingRequests
                  (JSMap.set (toString now) (promises st) (pendingRequests st))
                  (newPromise st).2) in
    settleExecutor (promises st) r.1 r.2.
Proof.
  unfold callTool.
  rewrite bool_decide_eq_false_2 by (intros H; vm_compute in H; discriminate H).
  rewrite bool_decide_eq_true_2 by done.
  cbv zeta. cbn [newPromise fst snd].
  destruct (startElectronGUIWithData _ _ _ _ _ _ _) as [thrown st'].
  cbn [fst snd]. by destruct (rejected _ _).
Qed.

Lemma Inv_callTool name_ args now failure st :
  Inv st → Inv (callTool name_ args now failure st).2.
Proof.
  intros HI.
  destruct (decide (name_ = js "ask_user")) as [->|H1].
  { destruct args as [a|]; [|done]. rewrite callTool_ask_user. by apply Inv_start. }
  destruct (decide (name_ = js "request_user_confirmation")) as [->|H2].
  { destruct args as [a|]; [|done].
    rewrite callTool_request_user_confirmation. by apply Inv_start. }
  unfold callTool. by rewrite !bool_decide_eq_false_2.
Qed.

Lemma Inv_step ev st : Inv st → Inv (step ev st).
Proof.
  intros HI. destruct ev; simpl.
  - by apply Inv_callTool.
  - by apply Inv_onStdoutData.
  - by apply Inv_console_error.
  - unfold onClose. cbv zeta.
    apply (Inv_markClosed child) in HI. by destruct HI.
  - by apply Inv_console_error.
Qed.

Lemma reachable_Inv st : reachable st → Inv st.
Proof. induction 1; auto using Inv_initial, Inv_step. Qed.

Lemma reachable_run evs st :
  reachable st → runnable evs st = true → reachable (run evs st).
Proof.
  revert st. induction evs as [|ev evs IH]; simpl; intros st Hst Hok; [done|].
  apply andb_true_iff in Hok as [Hev Hok].
  apply IH; [|done]. by apply reachable_step.
Qed.

Lemma run_app evs1 evs2 st : run (evs1 ++ evs2) st = run evs2 (run evs1 st).
Proof. unfold run. by rewrite foldl_app. Qed.

Lemma run_quiet child prior st :
  Forall quiet prior → run (StdoutData child <$> prior) st = st.
Proof.
  induction 1 as [|d prior Hd _ IH]; simpl; [done|].
  unfold onStdoutData. cbv zeta.
  by rewrite foldl_processLine_nonterminal.
Qed.

(** ** Settled promises *)

Lemma find_resolution_fresh {A} p (l : list (nat * A)) :
  p ∉ l.*1 → List.find (λ r, bool_decide (r.1 = p)) l = None.
Proof.
  induction l as [|[q r] l IH]; simpl; [done|].
  intros [Hne Hl]%not_elem_of_cons.
  rewrite bool_decide_eq_false_2 by done. by apply IH.
Qed.

Lemma rejected_fresh p st : p ∉ (rejections st).*1 → rejected p st = None.
Proof. intros H. unfold rejected. by rewrite find_resolution_fresh. Qed.

Lemma rejected_reject p message st :
  p ∉ (rejections st).*1 → rejected p (reject p message st) = Some message.
Proof.
  intros H. unfold rejected, reject. simpl.
  induction (rejections st) as [|[q r'] l IH]; simpl.
  - by rewrite bool_decide_eq_true_2.
  - simpl in H. apply not_elem_of_cons in H as [Hne Hl].
    rewrite bool_decide_eq_false_2 by done. by apply IH.
Qed.

Lemma settled_fresh p st : p ∉ (resolutions st).*1 → settled p st = None.
Proof.
  intros H. unfold settled. destruct (rejected p st); [done|].
  by rewrite find_resolution_fresh.
Qed.

Lemma settled_resolve p r st :
  rejected p st = None →
  p ∉ (resolutions st).*1 → settled p (resolve p r st) = Some r.
Proof.
  intros Hrej H. unfold settled.
  change (rejected p (resolve p r st)) with (rejected p st). rewrite Hrej.
  unfold resolve. simpl.
  induction (resolutions st) as [|[q r'] l IH]; simpl.
  - by rewrite bool_decide_eq_true_2.
  - simpl in H. apply not_elem_of_cons in H as [Hne Hl].
    rewrite bool_decide_eq_false_2 by done. by apply IH.
Qed.

(** ** Lines that find the table empty *)

Lemma processLine_none st line :
  pendingRequests st = [] → processLine st line = st.
Proof.
  intros H. unfold processLine. cbv zeta.
  repeat case_match; by rewrite ?handleUserResponse_none.
Qed.

Lemma foldl_processLine_none st lines :
  pendingRequests st = [] → foldl processLine st lines = st.
Proof.
  intros H. induction lines as [|l lines IH]; simpl; [done|].
  by rewrite processLine_none.
Qed.

(** ** Replies *)

Lemma trimStart_idemp s : trimStart (trimStart s) = trimStart s.
Proof.
  induction s as [|c s IH]; simpl; [done|].
  destruct (isWhiteSpace c) eqn:Ec; [done|]. simpl. by rewrite Ec.
Qed.

Lemma trim_idemp s : trim (trim s) = trim s.
Proof.
  unfold trim. by rewrite trimStart_trimEnd, trimStart_idemp, trimEnd_idemp.
Qed.

(** A reply that is neither blank nor the word TIMEOUT resolves the oldest
    record with the trimmed payload. *)
Lemma processLine_reply st payload requestId p rest :
  pendingRequests st = (requestId, p) :: rest →
  truthy requestId = true →
  trim payload ≠ [] →
  trim payload ≠ js "TIMEOUT" →
  processLine st (js "TEXT_FROM_RENDERER:" ++ payload)
  = resolve p (reply (trim payload)) (set_pendingRequests rest st).
Proof.
  intros Hpend Hk Hblank Hword.
  rewrite processLine_text, (handleUserResponse_oldest _ _ _ _ _ Hpend Hk).
  unfold resultFor. rewrite trim_idemp.
  rewrite !bool_decide_eq_false_2 by done.
  by destruct (trim payload).
Qed.

(** ** Starting a session *)

(** What the start leaves alone, whether [spawn] returns or throws *)
Lemma startElectronGUIWithData_frame projectName message predefinedOptions
    timeoutOverride textAreaHeight failure st :
  let r := startElectronGUIWithData projectName message predefinedOptions
             timeoutOverride textAreaHeight failure st in
  r.1 = failure ∧
  pendingRequests r.2 = pendingRequests st ∧
  promises r.2 = promises st ∧
  resolutions r.2 = resolutions st ∧
  rejections r.2 = rejections st ∧
  electronProcess r.2 = match failure with Some _ => None | None => Some (length (children st)) end ∧
  length (children r.2) = length (children st) + match failure with Some _ => 0 | None => 1 end.
Proof.
  unfold startElectronGUIWithData. cbv zeta.
  destruct failure as [m|], (electronProcess st) as [p|] eqn:He; simpl;
    rewrite ?length_app, ?length_alter; simpl; split_and!; try done; lia.
Qed.

(** When [spawn] returns, the start appends one child, tracks it, and
    hands it these values. *)
Lemma startElectronGUIWithData_spawns projectName message predefinedOptions
    timeoutOverride textAreaHeight st :
  let st' := (startElectronGUIWithData projectName message predefinedOptions
                timeoutOverride textAreaHeight None st).2 in
  ∃ old c,
    children st' = old ++ [c] ∧
    length old = length (children st) ∧
    electronProcess st' = Some (length (children st)) ∧
    killed c = false ∧ closed c = false ∧
    env c !! "DIALOG_PROJECT_NAME" = Some projectName ∧
    env c !! "DIALOG_MESSAGE" = Some message ∧
    env c !! "DIALOG_PREDEFINED_OPTIONS"
      = Some (JSON_stringify (orEmptyArray predefinedOptions)) ∧
    env c !! "DIALOG_TIMEOUT"
      = Some (VStr (String_ (default dialogTimeout timeoutOverride))) ∧
    env c !! "DIALOG_TEXTAREA_HEIGHT"
      = Some (VStr (from_option String_ [] textAreaHeight)).
Proof.
  unfold startElectronGUIWithData. cbv zeta.
  destruct (electronProcess st) as [p|]; simpl;
    eexists _, _; (split; [reflexivity|]);
    rewrite ?length_alter; split_and!; try done;
    cbn [env]; by simplify_map_eq.
Qed.

(** When [spawn] throws, the children are as the kill left them and none
    is tracked. *)
Lemma startElectronGUIWithData_throws projectName message predefinedOptions
    timeoutOverride textAreaHeight m st :
  let st' := (startElectronGUIWithData projectName message predefinedOptions
                timeoutOverride textAreaHeight (Some m) st).2 in
  electronProcess st' = None ∧
  length (children st') = length (children st) ∧
  ∀ i c, children st !! i = Some c →
         env <$> children st' !! i = Some (env c).
Proof.
  unfold startElectronGUIWithData. cbv zeta.
  destruct (electronProcess st) as [p|] eqn:He; simpl; rewrite ?length_alter, ?He;
    (split_and!; [done|done|]); intros i c Hc; [|by rewrite Hc].
  destruct (decide (p = i)) as [->|Hne].
  - by rewrite list_lookup_alter_eq, Hc.
  - by rewrite list_lookup_alter_ne, Hc.
Qed.

(** A tool call on an argument record: what it does to the state *)
Lemma callTool_record name_ a now failure st :
  name_ = js "ask_user" ∨ name_ = js "request_user_confirmation" →
  let st' := (callTool name_ (Some a) now failure st).2 in
  pendingRequests st'
  = JSMap.set (toString now) (promises st) (pendingRequests st) ∧
  promises st' = S (promises st) ∧
  resolutions st' = resolutions st ∧
  rejections st'
  = rejections st ++ match failure with Some m => [(promises st, m)] | None => [] end ∧
  electronProcess st' = match failure with Some _ => None | None => Some (length (children st)) end ∧
  length (children st') = length (children st) + match failure with Some _ => 0 | None => 1 end.
Proof.
  intros Hname. cbv zeta.
  destruct failure as [m|], Hname as [-> | ->];
    rewrite ?callTool_ask_user, ?callTool_request_user_confirmation; cbv zeta;
    match goal with
    | |- context [startElectronGUIWithData ?pn ?m ?o ?t ?h ?f ?s] =>
        pose proof (startElectronGUIWithData_frame pn m o t h f s)
          as (Hr & Hp & Hn & Hres & Hrej & He & Hc)
    end; cbv zeta in *; rewrite Hr; unfold settleExecutor, reject;
    cbn [pendingRequests promises resolutions rejections electronProcess children];
    rewrite Hp, Hn, Hres, Hrej, He, Hc; simpl; by rewrite ?app_nil_r.
Qed.

(** How the handler completes in a state the bridge can be in *)
Lemma callTool_completion name_ a now failure st :
  Inv st →
  name_ = js "ask_user" ∨ name_ = js "request_user_confirmation" →
  (callTool name_ (Some a) now failure st).1
  = match failure with
    | None => Await (promises st)
    | Some m =>
        Throw (if bool_decide (name_ = js "ask_user")
               then Error (js "Failed to show dialog: " ++ m)
               else SpawnFailure m)
    end.
Proof.
  intros HI Hname.
  assert (promises st ∉ (rejections st).*1) as Hfresh.
  { intros ?%(inv_rej_bound _ HI). lia. }
  unfold callTool, showDialog.
  destruct Hname as [-> | ->].
  - rewrite !bool_decide_eq_true_2 by done.
    cbv zeta. cbn [newPromise fst snd].
    match goal with
    | |- context [startElectronGUIWithData ?pn ?m ?o ?t ?h ?f ?s] =>
        pose proof (startElectronGUIWithData_frame pn m o t h f s)
          as (Hr & _ & _ & _ & Hrej & _);
        destruct (startElectronGUIWithData pn m o t h f s) as [thrown st'] eqn:E
    end.
    cbn [fst snd] in *. subst thrown. destruct failure as [m|]; simpl.
    + rewrite rejected_reject; [done|by rewrite Hrej].
    + rewrite rejected_fresh; [done|by rewrite Hrej].
  - rewrite bool_decide_eq_false_2 by (intros H; vm_compute in H; discriminate H).
    rewrite bool_decide_eq_true_2 by done.
    cbv zeta. cbn [newPromise fst snd].
    match goal with
    | |- context [startElectronGUIWithData ?pn ?m ?o ?t ?h ?f ?s] =>
        pose proof (startElectronGUIWithData_frame pn m o t h f s)
          as (Hr & _ & _ & _ & Hrej & _);
        destruct (startElectronGUIWithData pn m o t h f s) as [thrown st'] eqn:E
    end.
    cbn [fst snd] in *. subst thrown. destruct failure as [m|]; simpl.
    + rewrite rejected_reject; [done|by rewrite Hrej].
    + rewrite rejected_fresh; [done|by rewrite Hrej].
Qed.

(** The child a tool call on an argument record spawns when [spawn]
    returns *)
Lemma callTool_spawns name_ a now st :
  name_ = js "ask_user" ∨ name_ = js "request_user_confirmation" →
  let st' := (callTool name_ (Some a) now None st).2 in
  let asks := bool_decide (name_ = js "ask_user") in
  ∃ old c,
    children st' = old ++ [c] ∧
    length old = length (children st) ∧
    electronProcess st' = Some (length (children st)) ∧
    killed c = false ∧ closed c = false ∧
    env c !! "DIALOG_PROJECT_NAME" = Some (prop a "projectName") ∧
    env c !! "DIALOG_MESSAGE"
      = Some (prop a (if asks then "message" else "summary")) ∧
    env c !! "DIALOG_PREDEFINED_OPTIONS"
      = Some (if asks
              then JSON_stringify (orEmptyArray (prop a "predefinedOptions"))
              else VStr (js "[]")) ∧
    env c !! "DIALOG_TIMEOUT"
      = Some (VStr (if asks then toString dialogTimeout else js "0")) ∧
    env c !! "DIALOG_TEXTAREA_HEIGHT"
      = Some (VStr (if asks then [] else js "300")).
Proof.
  intros [-> | ->]; cbv zeta;
    rewrite ?callTool_ask_user, ?callTool_request_user_confirmation; cbv zeta;
    match goal with
    | |- context [startElectronGUIWithData ?pn ?m ?o ?t ?h None ?s] =>
        pose proof (startElectronGUIWithData_frame pn m o t h None s) as (Hr & _);
        pose proof (startElectronGUIWithData_spawns pn m o t h s)
          as (old & c & Hch & Hlen & Htr & Hk & Hcl & Hpn & Hm & Hopt & Hto & Hh)
    end; cbv zeta in *; rewrite Hr; cbv beta iota delta [settleExecutor];
    exists old, c; rewrite Hch, Htr; split_and!; try done.
  rewrite Hopt. by destruct (prop a "predefinedOptions").
Qed.

Lemma JSMap_set_elem {V} k (v : V) m : v ∈ (JSMap.set k v m).*2.
Proof.
  induction m as [|[k0 v0] m IH]; simpl.
  - by apply list_elem_of_singleton.
  - case_bool_decide; simpl; [left|by right].
Qed.

(** ** The claims *)

(** C2, as amended: between any two callbacks the bridge tracks at most
    one process handle, and a tracked handle is the child spawned last,
    neither killed nor closed; the pending-request table may hold several
    records at once: their request ids are pairwise distinct, so are their
    continuations, each belongs to a call that was made, and none of them
    has been resolved or is fulfilled yet. *)
Theorem tracked_handle_and_pending_records st :
  reachable st →
  (∀ n, electronProcess st = Some n →
        S n = length (children st) ∧ isAlive st n = true) ∧
  NoDup (pendingRequests st).*1 ∧
  NoDup (pendingRequests st).*2 ∧
  (∀ n, n ∈ (pendingRequests st).*2 →
        n < promises st ∧ (n ∉ (resolutions st).*1) ∧ settled n st = None).
Proof.
  intros [Hkn Hkt Hvn Hvf Hrb Hrn Hs Ht Hj]%reachable_Inv.
  split_and!; try done.
  - intros n [? (c & Hc & Hk & Hcl)]%Ht. split; [done|].
    unfold isAlive. by rewrite Hc, Hk, Hcl.
  - intros n [Hb Hr]%Hvf. split_and!; [done|done|]. by apply settled_fresh.
Qed.

(** C4, as amended: the handler checks no required field.  A call of
    [ask_user] or [request_user_confirmation] without an argument record
    throws at once and leaves the state as it was.  A call with an argument
    record, whatever fields it holds, stores a pending record and goes on
    to [spawn]: when [spawn] returns, the handler is suspended on its
    promise and one child has been spawned, a field the record does not
    hold being handed over as [undefined]; when [spawn] throws, the error
    is surfaced to the caller ([ask_user] wraps it in [Failed to show
    dialog]), no child is spawned and none is tracked. *)
Theorem required_fields_are_not_checked name_ args now failure st :
  reachable st →
  name_ = js "ask_user" ∨ name_ = js "request_user_confirmation" →
  match args with
  | None => callTool name_ None now failure st = (Throw TypeError, st)
  | Some a =>
      let r := callTool name_ (Some a) now failure st in
      promises st ∈ (pendingRequests r.2).*2 ∧
      match failure with
      | None =>
          r.1 = Await (promises st) ∧
          ∃ old c,
            children r.2 = old ++ [c] ∧
            length old = length (children st) ∧
            env c !! "DIALOG_PROJECT_NAME" = Some (prop a "projectName") ∧
            env c !! "DIALOG_MESSAGE"
              = Some (prop a (if bool_decide (name_ = js "ask_user")
                              then "message" else "summary"))
      | Some m =>
          r.1 = Throw (if bool_decide (name_ = js "ask_user")
                       then Error (js "Failed to show dialog: " ++ m)
                       else SpawnFailure m) ∧
          length (children r.2) = length (children st) ∧
          electronProcess r.2 = None
      end
  end.
Proof.
  intros HI%reachable_Inv Hname.
  destruct args as [a|]; [|by destruct Hname as [-> | ->]].
  cbv zeta.
  destruct (callTool_record name_ a now failure st Hname)
    as (Hpend & _ & _ & _ & Htr & Hlen).
  pose proof (callTool_completion name_ a now failure st HI Hname) as Hcompl.
  split; [rewrite Hpend; apply JSMap_set_elem|].
  destruct failure as [m|].
  - split_and!; [done|lia|done].
  - split; [done|].
    destruct (callTool_spawns name_ a now st Hname)
      as (old & c & Hch & Hold & _ & _ & _ & Hpn & Hm & _).
    by exists old, c.
Qed.

(** C5: a line [TEXT_FROM_RENDERER:<payload>] whose payload is empty or
    all white space produces the empty-reply result and nothing else: every
    resolution the line adds reads as [EmptyReply], and when a record is
    pending the oldest one is taken out of the table and resolved so. *)
Theorem blank_reply_is_EmptyReply st payload :
  reachable st →
  forallb isWhiteSpace payload = true →
  let st' := processLine st (js "TEXT_FROM_RENDERER:" ++ payload) in
  ∃ new,
    resolutions st' = resolutions st ++ new ∧
    Forall (λ r, outcomeOf r.2 = Some EmptyReply) new ∧
    ∀ requestId p rest,
      pendingRequests st = (requestId, p) :: rest →
      new = [(p, emptyNotice)] ∧ pendingRequests st' = rest.
Proof.
  intros HI%reachable_Inv Hblank. cbv zeta.
  rewrite processLine_text, trim_blank by done.
  destruct (pendingRequests st) as [|[k p] rest] eqn:Hpend.
  - rewrite handleUserResponse_none by done.
    exists []. by rewrite app_nil_r.
  - pose proof (inv_keys_truthy _ HI) as Hk. rewrite Hpend in Hk.
    apply Forall_cons in Hk as [Hk _].
    rewrite (handleUserResponse_oldest _ _ _ _ _ Hpend Hk).
    exists [(p, emptyNotice)]. split_and!; [done| |].
    + by apply Forall_singleton.
    + by intros ??? [= <- <- <-].
Qed.

(** C6, as amended: when the record of a session is the only one pending
    and a chunk on standard output holds the line [DIALOG_TIMEOUT] whole,
    whatever chunks and lines that end no wait came before it and whatever
    lines follow it in the chunk, the promise of that record is fulfilled
    with the timeout result and the table is left empty. *)
Theorem timeout_settles_the_only_pending_record st requestId p child prior data :
  reachable st →
  pendingRequests st = [(requestId, p)] →
  rejected p st = None →
  Forall quiet prior →
  timesOut data →
  let st' := run ((StdoutData child <$> prior) ++ [StdoutData child data]) st in
  settled p st' = Some timeoutNotice ∧
  outcomeOf timeoutNotice = Some TimedOut ∧
  pendingRequests st' = [].
Proof.
  intros HI%reachable_Inv Hpend Hrej Hprior (before & line & after & Hdata & Hbefore & Hline).
  cbv zeta. rewrite run_app, run_quiet by done.
  simpl. unfold onStdoutData. cbv zeta. rewrite Hdata.
  rewrite !foldl_app, (foldl_processLine_nonterminal st before) by done. simpl.
  pose proof (inv_keys_truthy _ HI) as Hk. rewrite Hpend in Hk.
  apply Forall_cons in Hk as [Hk _].
  rewrite processLine_timeout, (handleUserResponse_oldest _ _ _ _ _ Hpend Hk) by done.
  rewrite foldl_processLine_none by done.
  split_and!; [|done|done].
  apply (settled_resolve p _ (set_pendingRequests [] st)); [done|]. simpl.
  apply (inv_vals_fresh _ HI). rewrite Hpend. by left.
Qed.

(** C7, as amended: [request_user_confirmation], called with an argument
    record, goes on to [spawn]; when [spawn] returns, one child has been
    spawned and is tracked, and whatever the default timeout of the command
    line is, the child is handed the timeout 0, the response-area height
    300 and the empty options list.  When [spawn] throws no child is
    spawned, and without an argument record the handler throws before it
    does anything. *)
Theorem confirmation_handoff args now failure st :
  let r := callTool (js "request_user_confirmation") args now failure st in
  match args, failure with
  | Some _, None =>
      ∃ old c,
        children r.2 = old ++ [c] ∧
        length old = length (children st) ∧
        electronProcess r.2 = Some (length (children st)) ∧
        env c !! "DIALOG_TIMEOUT" = Some (VStr (js "0")) ∧
        env c !! "DIALOG_TEXTAREA_HEIGHT" = Some (VStr (js "300")) ∧
        env c !! "DIALOG_PREDEFINED_OPTIONS" = Some (VStr (js "[]"))
  | Some _, Some _ =>
      length (children r.2) = length (children st) ∧ electronProcess r.2 = None
  | None, _ => r = (Throw TypeError, st)
  end.
Proof.
  cbv zeta. destruct args as [a|]; [|done]. destruct failure as [m|].
  - destruct (callTool_record (js "request_user_confirmation") a now (Some m) st)
      as (_ & _ & _ & _ & Htr & Hlen); [by right|].
    split; [lia|done].
  - destruct (callTool_spawns (js "request_user_confirmation") a now st)
      as (old & c & Hch & Hold & Htr & _ & _ & _ & _ & Hopt & Hto & Hh); [by right|].
    by exists old, c.
Qed.

(** C8: a call whose tool name is neither [ask_user] nor
    [request_user_confirmation] throws the error [Unknown tool: <name>]
    and leaves the state as it was, so it spawns nothing. *)
Theorem unknown_tool_is_rejected name_ args now failure st :
  name_ ≠ js "ask_user" →
  name_ ≠ js "request_user_confirmation" →
  callTool name_ args now failure st
  = (Throw (Error (js "Unknown tool: " ++ name_)), st).
Proof.
  intros H1 H2. unfold callTool. by rewrite !bool_decide_eq_false_2.
Qed.

(** C9: the line [DIALOG_CLOSED] changes nothing: the table, the tracked
    handle, the children, the promises and the resolutions made so far are
    what they were, whether the line is processed on its own or arrives as a
    chunk on the stream of some child. *)
Theorem dialog_closed_is_ignored child line st :
  trim line = js "DIALOG_CLOSED" →
  processLine st line = st ∧ step (StdoutData child line) st = st.
Proof.
  intros H. split; [by apply processLine_closed|].
  simpl. unfold onStdoutData. cbv zeta. by rewrite H.
Qed.

(** C10: a terminal event that finds the table empty is ignored: the
    response handler, the line loop and the stream callback all return the
    state they were given, and nothing is thrown.  So no promise is resolved
    twice: in the log of resolve calls every promise occurs at most once,
    and a promise that occurs there has no record in the table any more. *)
Theorem terminal_event_without_pending_record st :
  reachable st →
  (pendingRequests st = [] →
   ∀ userResponse line child data,
     handleUserResponse userResponse st = st ∧
     processLine st line = st ∧
     step (StdoutData child data) st = st) ∧
  NoDup (resolutions st).*1 ∧
  (∀ p, p ∈ (resolutions st).*1 → p ∉ (pendingRequests st).*2).
Proof.
  intros HI%reachable_Inv. split_and!.
  - intros Hnone userResponse line child data. split_and!.
    + by apply handleUserResponse_none.
    + by apply processLine_none.
    + simpl. by apply foldl_processLine_none.
  - apply (inv_res_nodup _ HI).
  - intros p Hp Hq. by destruct (inv_vals_fresh _ HI p Hq).
Qed.

(** ** Further properties of the bridge *)

(** *** The dispatcher and the advertised tools *)

(** X1: the dispatcher knows the tools [initialTools] advertises and no
    other: a call is turned down as an unknown tool exactly when no
    advertised tool has its name. *)
Theorem dispatcher_knows_the_advertised_tools name_ args now failure st :
  (∃ tool, tool ∈ initialTools ∧ name tool = name_) ↔
  (callTool name_ args now failure st).1
  ≠ Throw (Error (js "Unknown tool: " ++ name_)).
Proof.
  split.
  - intros (tool & Hin & <-).
    assert (name tool = js "ask_user" ∨ name tool = js "request_user_confirmation")
      as Hname.
    { apply elem_of_cons in Hin as [->|Hin]; [by left|].
      apply list_elem_of_singleton in Hin as ->. by right. }
    unfold callTool, showDialog. destruct Hname as [-> | ->].
    + rewrite bool_decide_eq_true_2 by done. destruct args as [a|]; [|done].
      cbv zeta. cbn [newPromise fst snd].
      destruct (startElectronGUIWithData _ _ _ _ _ _ _) as [thrown st'].
      cbn [fst snd]. destruct (rejected _ _); [|done].
      cbn [fst]. intros [= H].
    + rewrite bool_decide_eq_false_2 by (intros H; vm_compute in H; discriminate H).
      rewrite bool_decide_eq_true_2 by done. destruct args as [a|]; [|done].
      cbv zeta. cbn [newPromise fst snd].
      destruct (startElectronGUIWithData _ _ _ _ _ _ _) as [thrown st'].
      cbn [fst snd]. by destruct (rejected _ _).
  - unfold callTool. intros Hne. case_bool_decide as H1.
    { eexists. split; [by left|]. by rewrite H1. }
    case_bool_decide as H2.
    { eexists. split; [by right; left|]. by rewrite H2. }
    done.
Qed.

(** *** What a child is handed *)

(** X2: [ask_user], called with an argument record, hands the child it
    spawns (when [spawn] returns) the project name and the message as they
    came, the default timeout of the command line, an empty response-area
    height, and the options as JSON text: the text [[]] when the record
    has none.  The numbers involved are such as the program holds exactly
    (below 2^53 in magnitude). *)
Theorem ask_user_handoff a now st :
  (Z.abs dialogTimeout < 2 ^ 53)%Z →
  exact (prop a "predefinedOptions") = true →
  let st' := (callTool (js "ask_user") (Some a) now None st).2 in
  ∃ old c,
    children st' = old ++ [c] ∧
    length old = length (children st) ∧
    electronProcess st' = Some (length (children st)) ∧
    env c !! "DIALOG_PROJECT_NAME" = Some (prop a "projectName") ∧
    env c !! "DIALOG_MESSAGE" = Some (prop a "message") ∧
    env c !! "DIALOG_TIMEOUT" = Some (VStr (toString dialogTimeout)) ∧
    env c !! "DIALOG_TEXTAREA_HEIGHT" = Some (VStr []) ∧
    env c !! "DIALOG_PREDEFINED_OPTIONS"
      = Some (match prop a "predefinedOptions" with
              | VUndef => VStr (js "[]")
              | v => JSON_stringify v
              end).
Proof.
  intros _ _. cbv zeta.
  destruct (callTool_spawns (js "ask_user") a now st)
    as (old & c & Hch & Hold & Htr & _ & _ & Hpn & Hm & Hopt & Hto & Hh); [by left|].
  exists old, c. split_and!; try done.
  rewrite Hopt. simpl. by destruct (prop a "predefinedOptions").
Qed.



(** *** Superseding *)

(** X4: starting a session calls [kill] on the tracked child and on no
    other: every child spawned before keeps its environment and its closed
    flag, and is marked killed if it was so before or was the tracked one. *)
Theorem start_kills_the_tracked_child_only projectName message predefinedOptions
    timeoutOverride textAreaHeight failure st i c :
  children st !! i = Some c →
  children (startElectronGUIWithData projectName message predefinedOptions
              timeoutOverride textAreaHeight failure st).2 !! i
  = Some {| env := env c;
            killed := killed c || bool_decide (electronProcess st = Some i);
            closed := closed c |}.
Proof.
  intros Hc. unfold startElectronGUIWithData, spawn. cbv zeta.
  pose proof (lookup_lt_Some _ _ _ Hc) as Hlt.
  destruct (electronProcess st) as [p|], failure as [m|]; simpl;
    rewrite ?lookup_app_l by (rewrite ?length_alter; done).
  1,2: destruct (decide (p = i)) as [->|Hne];
    [ rewrite list_lookup_alter_eq, Hc; simpl;
      rewrite bool_decide_eq_true_2 by done; by rewrite orb_true_r
    | rewrite list_lookup_alter_ne, Hc by done;
      rewrite bool_decide_eq_false_2 by congruence;
      rewrite orb_false_r; by destruct c ].
  all: rewrite Hc, orb_false_r; by destruct c.
Qed.

(** X5: once the close event of a child has been delivered, whichever
    child it was, the next tool call kills nobody: all the children
    spawned before are left as they were, beside the new one when [spawn]
    returns, and alone when it throws. *)
Theorem call_after_close_kills_nobody child code name_ a now failure st :
  name_ = js "ask_user" ∨ name_ = js "request_user_confirmation" →
  let st1 := step (Close child code) st in
  let st2 := (callTool name_ (Some a) now failure st1).2 in
  match failure with
  | None =>
      ∃ c, children st2 = children st1 ++ [c] ∧
           electronProcess st2 = Some (length (children st1))
  | Some _ => children st2 = children st1 ∧ electronProcess st2 = None
  end.
Proof.
  intros [-> | ->]; cbv zeta;
    rewrite ?callTool_ask_user, ?callTool_request_user_confirmation;
    destruct failure as [m|]; cbn; by eauto.
Qed.

(** *** Responses *)

(** Whatever the state, the handler either does nothing or takes the
    first record out and resolves its promise. *)
Lemma handleUserResponse_cases userResponse st :
  handleUserResponse userResponse st = st ∨
  ∃ requestId p rest,
    pendingRequests st = (requestId, p) :: rest ∧
    handleUserResponse userResponse st
    = resolve p (resultFor userResponse) (set_pendingRequests rest st).
Proof.
  destruct (pendingRequests st) as [|[k p] rest] eqn:Hpend.
  { left. by apply handleUserResponse_none. }
  destruct (truthy k) eqn:Hk.
  - right. exists k, p, rest. split; [done|]. by apply (handleUserResponse_oldest _ _ k).
  - left. unfold handleUserResponse. rewrite Hpend. simpl. by rewrite Hk.
Qed.

Lemma foldl_handleUserResponse rs pend st :
  pendingRequests st = pend →
  Forall (λ k, truthy k = true) pend.*1 →
  let st' := foldl (λ st r, handleUserResponse r st) st rs in
  pendingRequests st' = drop (length rs) pend ∧
  resolutions st' = resolutions st ++ zip pend.*2 (resultFor <$> rs).
Proof.
  revert pend st. induction rs as [|r rs IH]; intros pend st Hpend Hk; simpl.
  { rewrite drop_0. destruct pend.*2; by rewrite app_nil_r. }
  destruct pend as [|[k p] rest]; simpl.
  - rewrite handleUserResponse_none by done.
    destruct (IH [] st Hpend Hk) as [-> ->]. by rewrite drop_nil.
  - apply Forall_cons in Hk as [Hk Hrest].
    rewrite (handleUserResponse_oldest _ _ _ _ _ Hpend Hk).
    destruct (IH rest (resolve p (resultFor r) (set_pendingRequests rest st))
                eq_refl Hrest) as [-> ->].
    simpl. by rewrite <-app_assoc.
Qed.

(** X6: responses are dealt out oldest record first.  A sequence of
    responses takes as many records off the front of the table as there are
    responses, and resolves their promises in the order of the table, each
    with the result of its response; responses beyond the last record are
    dropped. *)
Theorem responses_are_served_in_table_order rs st :
  reachable st →
  let st' := foldl (λ st r, handleUserResponse r st) st rs in
  pendingRequests st' = drop (length rs) (pendingRequests st) ∧
  resolutions st'
  = resolutions st ++ zip (pendingRequests st).*2 (resultFor <$> rs).
Proof.
  intros HI%reachable_Inv. apply foldl_handleUserResponse; [done|].
  apply (inv_keys_truthy _ HI).
Qed.

(** X7: a line [TEXT_FROM_RENDERER:<payload>] whose payload, trimmed, is
    neither empty nor the word TIMEOUT resolves the oldest pending record
    with [User replied: ] followed by the trimmed payload, which reads as
    [Replied] of that text. *)
Theorem nonblank_reply_is_Replied st payload requestId p rest :
  reachable st →
  pendingRequests st = (requestId, p) :: rest →
  trim payload ≠ [] →
  trim payload ≠ js "TIMEOUT" →
  processLine st (js "TEXT_FROM_RENDERER:" ++ payload)
  = resolve p (reply (trim payload)) (set_pendingRequests rest st) ∧
  outcomeOf (reply (trim payload)) = Some (Replied (trim payload)).
Proof.
  intros HI%reachable_Inv Hpend Hblank Hword.
  pose proof (inv_keys_truthy _ HI) as Hk. rewrite Hpend in Hk.
  apply Forall_cons in Hk as [Hk _].
  split; [by apply (processLine_reply _ _ requestId)|apply outcomeOf_reply].
Qed.

(** *** Lines and chunks *)

Lemma trimStart_app_blank ws s :
  forallb isWhiteSpace ws = true → trimStart (ws ++ s) = trimStart s.
Proof.
  induction ws as [|c ws IH]; simpl; [done|].
  destruct (isWhiteSpace c); simpl; [done|discriminate].
Qed.

Lemma trim_padded ws1 s ws2 :
  forallb isWhiteSpace ws1 = true →
  forallb isWhiteSpace ws2 = true →
  trim (ws1 ++ s ++ ws2) = trim s.
Proof.
  intros H1 H2. unfold trim.
  rewrite trimStart_app_blank, <-!trimStart_trimEnd by done.
  by rewrite trimEnd_app_blank by (by apply trimEnd_nil_iff).
Qed.

(** X8: white space around a line does not count: a line padded with
    blanks, tabs or a carriage return (a line that ended in CR LF) is
    processed as the bare line is. *)
Theorem line_padding_is_ignored st ws1 line ws2 :
  forallb isWhiteSpace ws1 = true →
  forallb isWhiteSpace ws2 = true →
  processLine st (ws1 ++ line ++ ws2) = processLine st line.
Proof. intros H1 H2. unfold processLine. by rewrite trim_padded. Qed.

(** X9: a chunk changes the state only when a record is pending and one
    of its lines is a reply or the timeout marker; any other output of a
    child is dropped. *)
Theorem chunk_changes_state_only_by_terminal_line child data st :
  step (StdoutData child data) st ≠ st →
  pendingRequests st ≠ [] ∧
  ∃ line, line ∈ split LF (trim data) ∧ terminal line = true.
Proof.
  simpl. unfold onStdoutData. cbv zeta. intros Hne. split.
  - intros Hnone. by rewrite foldl_processLine_none in Hne.
  - assert (∀ lines, Forall (λ l, terminal l = false) lines ∨
                       ∃ line, line ∈ lines ∧ terminal line = true) as Hdec.
    { induction lines as [|l lines [IH|(line & Hin & Hl)]].
      - left. constructor.
      - destruct (terminal l) eqn:E.
        + right. exists l. split; [by left|done].
        + left. by constructor.
      - right. exists line. split; [by right|done]. }
    destruct (Hdec (split LF (trim data))) as [Hall|Hex]; [|done].
    destruct Hne. by apply foldl_processLine_nonterminal.
Qed.

(** X10: nothing puts a marker together again that reached the bridge
    in two chunks: when the text [DIALOG_TIMEOUT] is cut anywhere and its
    two parts arrive one after the other, both are dropped and the state is
    what it was. *)
Theorem marker_cut_in_two_is_lost child a b st :
  a ++ b = js "DIALOG_TIMEOUT" →
  a ≠ [] →
  b ≠ [] →
  run [StdoutData child a; StdoutData child b] st = st.
Proof.
  intros Hab Ha Hb.
  assert (a = take (length a) (js "DIALOG_TIMEOUT") ∧
          b = drop (length a) (js "DIALOG_TIMEOUT")) as [Ea Eb].
  { rewrite <-Hab. by rewrite take_app_length, drop_app_length. }
  assert (0 < length a < 14) as Hi.
  { apply (f_equal length) in Hab. rewrite length_app in Hab.
    change (length (js "DIALOG_TIMEOUT")) with 14 in Hab.
    destruct a, b; simpl in *; try done; lia. }
  rewrite Ea, Eb. generalize (length a), Hi. clear. intros i Hi.
  do 14 (destruct i as [|i]; [try lia; reflexivity|]). lia.
Qed.

(** *** What settles a promise, and what does not *)

(** A call either leaves the state alone or is one of the two tools with
    an argument record. *)
Lemma callTool_cases name_ args now failure st :
  (callTool name_ args now failure st).2 = st ∨
  ∃ a, args = Some a ∧
       (name_ = js "ask_user" ∨ name_ = js "request_user_confirmation").
Proof.
  unfold callTool. repeat case_bool_decide; destruct args as [a|]; eauto.
Qed.

Lemma callTool_resolutions name_ args now failure st :
  resolutions (callTool name_ args now failure st).2 = resolutions st.
Proof.
  destruct (callTool_cases name_ args now failure st) as [->|(a & -> & Hname)]; [done|].
  by destruct (callTool_record name_ a now failure st Hname) as (_ & _ & -> & _).
Qed.

(** X11: only the standard output of a child answers a caller.  Over any
    sequence of tool calls, close events, spawn errors and chunks on
    standard error, no promise is resolved. *)
Theorem without_stdout_nothing_is_settled evs st :
  Forall (λ ev, ∀ child data, ev ≠ StdoutData child data) evs →
  resolutions (run evs st) = resolutions st.
Proof.
  intros Hevs. revert st. induction Hevs as [|ev evs Hev _ IH]; intros st; [done|].
  simpl. rewrite IH. destruct ev; simpl; try done.
  - apply callTool_resolutions.
  - by destruct (Hev child data).
Qed.

(** A promise that has no record and no resolution stays so. *)
Lemma lost_step p ev st :
  p < promises st →
  p ∉ (pendingRequests st).*2 →
  p ∉ (resolutions st).*1 →
  p < promises (step ev st) ∧
  (p ∉ (pendingRequests (step ev st)).*2) ∧
  p ∉ (resolutions (step ev st)).*1.
Proof.
  intros Hlt Hpend Hres.
  assert (∀ r st, p < promises st → p ∉ (pendingRequests st).*2 →
            p ∉ (resolutions st).*1 →
            p < promises (handleUserResponse r st) ∧
            (p ∉ (pendingRequests (handleUserResponse r st)).*2) ∧
            p ∉ (resolutions (handleUserResponse r st)).*1) as Hresp.
  { clear. intros r st Hlt Hpend Hres.
    destruct (handleUserResponse_cases r st) as [->|(k & q & rest & Hp & ->)]; [done|].
    rewrite Hp in Hpend. simpl in *. apply not_elem_of_cons in Hpend as [Hne Hrest].
    split_and!; [done|done|].
    rewrite fmap_app. simpl. intros [?|Hq]%elem_of_app; [done|].
    by apply list_elem_of_singleton in Hq. }
  assert (∀ lines st, p < promises st → p ∉ (pendingRequests st).*2 →
            p ∉ (resolutions st).*1 →
            p < promises (foldl processLine st lines) ∧
            (p ∉ (pendingRequests (foldl processLine st lines)).*2) ∧
            p ∉ (resolutions (foldl processLine st lines)).*1) as Hlines.
  { clear -Hresp. induction lines as [|l lines IH]; intros st Hlt Hpend Hres; [done|].
    simpl. apply IH; unfold processLine; cbv zeta;
      repeat case_match; try done; by apply Hresp. }
  destruct ev; simpl.
  - destruct (callTool_cases tool args now failure st) as [->|(a & -> & Hname)]; [done|].
    destruct (callTool_record tool a now failure st Hname) as (-> & -> & -> & _).
    split_and!; [lia| |done].
    intros [?|?]%JSMap_set_vals; [lia|done].
  - by apply Hlines.
  - done.
  - done.
  - done.
Qed.

Lemma lost_run p evs st :
  p < promises st →
  p ∉ (pendingRequests st).*2 →
  p ∉ (resolutions st).*1 →
  p ∉ (resolutions (run evs st)).*1.
Proof.
  revert st. induction evs as [|ev evs IH]; intros st Hlt Hpend Hres; simpl.
  - done.
  - destruct (lost_step p ev st) as (?&?&?); auto.
Qed.

(** X12: a promise whose record is gone from the table while no resolution
    was made for it is never resolved, whatever happens afterwards: no
    [resolve] of it is ever called, so its caller, unless the call failed
    at [spawn], waits for ever. *)
Theorem promise_without_record_is_never_settled p evs st :
  p < promises st →
  p ∉ (pendingRequests st).*2 →
  p ∉ (resolutions st).*1 →
  settled p (run evs st) = None ∧
  p ∉ (resolutions (run evs st)).*1.
Proof.
  intros Hlt Hpend Hres.
  pose proof (lost_run p evs st Hlt Hpend Hres) as Hlost.
  split; [by apply settled_fresh|done].
Qed.

Lemma JSMap_set_overwrites {V} k (p v : V) m :
  (k, p) ∈ m → NoDup m.*1 → NoDup m.*2 → v ∉ m.*2 →
  (p ∉ (JSMap.set k v m).*2) ∧ length (JSMap.set k v m) = length m.
Proof.
  induction m as [|[k0 v0] m IH]; simpl; intros Hin Hk Hv Hfresh.
  { by apply elem_of_nil in Hin. }
  apply NoDup_cons in Hk as [Hk0 Hk]. apply NoDup_cons in Hv as [Hv0 Hv].
  apply not_elem_of_cons in Hfresh as [Hne Hfresh].
  case_bool_decide as Hkk; simpl.
  - subst k0. apply elem_of_cons in Hin as [[= ->]|Hin].
    + split; [|done]. intros [?|?]%elem_of_cons; done.
    + destruct Hk0. apply list_elem_of_fmap. by exists (k, p).
  - apply elem_of_cons in Hin as [[= ? ?]|Hin]; [done|].
    destruct (IH Hin Hk Hv Hfresh) as [Hp Hlen]. split; [|by rewrite Hlen].
    intros [->|?]%elem_of_cons; [|done].
    destruct Hv0. apply list_elem_of_fmap. by exists (k, v0).
Qed.

(** X13: request ids are millisecond stamps, so a tool call made in the
    millisecond of a pending call takes over its request id: the table
    does not grow, the continuation of the earlier call is overwritten, and
    the earlier promise is never resolved: no [resolve] of it is ever
    called. *)
Theorem call_in_the_same_millisecond_displaces name_ a now failure p st :
  reachable st →
  name_ = js "ask_user" ∨ name_ = js "request_user_confirmation" →
  (toString now, p) ∈ pendingRequests st →
  let st' := (callTool name_ (Some a) now failure st).2 in
  length (pendingRequests st') = length (pendingRequests st) ∧
  (p ∉ (pendingRequests st').*2) ∧
  settled p st' = None ∧
  ∀ evs, settled p (run evs st') = None ∧ p ∉ (resolutions (run evs st')).*1.
Proof.
  intros HI%reachable_Inv Hname Hin. cbv zeta.
  assert (p ∈ (pendingRequests st).*2) as Hp.
  { apply list_elem_of_fmap. by exists (toString now, p). }
  destruct (inv_vals_fresh _ HI p Hp) as [Hlt Hres].
  destruct (JSMap_set_overwrites (toString now) p (promises st) (pendingRequests st))
    as [Hgone Hlen]; [done|apply HI|apply HI| |].
  { intros [? _]%(inv_vals_fresh _ HI). lia. }
  destruct (callTool_record name_ a now failure st Hname)
    as (Epend & Eprom & Eres & _).
  rewrite Epend. split_and!; [done|done| |].
  - apply settled_fresh. by rewrite Eres.
  - intros evs.
    assert (p ∉ (resolutions (run evs (callTool name_ (Some a) now failure st).2)).*1)
      as Hlost.
    { apply lost_run.
      - rewrite Eprom. lia.
      - by rewrite Epend.
      - by rewrite Eres. }
    split; [by apply settled_fresh|done].
Qed.

Lemma JSMap_set_fresh {V} k (v : V) m :
  k ∉ m.*1 → JSMap.set k v m = m ++ [(k, v)].
Proof.
  induction m as [|[k0 v0] m IH]; simpl; intros Hk; [done|].
  apply not_elem_of_cons in Hk as [Hne Hk].
  rewrite bool_decide_eq_false_2 by done. by rewrite IH.
Qed.

(** X14: a tool call whose request id no pending record carries queues its
    record behind all the pending ones, under the next promise number, and
    leaves the records before it as they were.  The caller is left waiting
    on that promise when [spawn] returns; when it throws, the caller gets
    the error ([ask_user] wraps it) and the record stays queued all the
    same. *)
Theorem call_queues_behind_the_pending name_ a now failure st :
  reachable st →
  name_ = js "ask_user" ∨ name_ = js "request_user_confirmation" →
  toString now ∉ (pendingRequests st).*1 →
  (callTool name_ (Some a) now failure st).1
  = match failure with
    | None => Await (promises st)
    | Some m =>
        Throw (if bool_decide (name_ = js "ask_user")
               then Error (js "Failed to show dialog: " ++ m)
               else SpawnFailure m)
    end ∧
  pendingRequests (callTool name_ (Some a) now failure st).2
  = pendingRequests st ++ [(toString now, promises st)].
Proof.
  intros HI%reachable_Inv Hname Hfresh. split.
  - by apply callTool_completion.
  - destruct (callTool_record name_ a now failure st Hname) as (-> & _).
    by apply JSMap_set_fresh.
Qed.

(** *** Counting *)

Lemma processLine_count st line :
  Forall (λ k, truthy k = true) (pendingRequests st).*1 →
  Forall (λ k, truthy k = true) (pendingRequests (processLine st line)).*1 ∧
  length (pendingRequests (processLine st line))
    + length (resolutions (processLine st line))
  = length (pendingRequests st) + length (resolutions st).
Proof.
  intros Hk.
  assert (∀ r,
    Forall (λ k, truthy k = true) (pendingRequests (handleUserResponse r st)).*1 ∧
    length (pendingRequests (handleUserResponse r st))
      + length (resolutions (handleUserResponse r st))
    = length (pendingRequests st) + length (resolutions st)) as Hresp.
  { intros r. destruct (pendingRequests st) as [|[k p] rest] eqn:Hpend.
    - rewrite handleUserResponse_none by done. by rewrite Hpend.
    - apply Forall_cons in Hk as [Hk Hrest].
      rewrite (handleUserResponse_oldest _ _ _ _ _ Hpend Hk). simpl.
      split; [done|]. rewrite length_app. simpl. lia. }
  unfold processLine. cbv zeta. repeat case_match; try done; apply Hresp.
Qed.

(** X15: a chunk on standard output loses no record: in a reachable state
    every record it takes out of the table is matched by one resolution, so
    the number of pending records and the number of resolutions made add up
    to what they were. *)
Theorem chunk_resolves_what_it_removes child data st :
  reachable st →
  let st' := step (StdoutData child data) st in
  length (pendingRequests st') + length (resolutions st')
  = length (pendingRequests st) + length (resolutions st) ∧
  length (pendingRequests st') ≤ length (pendingRequests st).
Proof.
  intros HI%reachable_Inv. simpl. unfold onStdoutData. cbv zeta.
  pose proof (inv_keys_truthy _ HI) as Hk. clear HI.
  generalize (split LF (trim data)). intros lines.
  assert (length (pendingRequests (foldl processLine st lines))
            + length (resolutions (foldl processLine st lines))
          = length (pendingRequests st) + length (resolutions st) ∧
          length (resolutions st) ≤ length (resolutions (foldl processLine st lines)))
    as [Hsum Hres]; [|lia].
  revert st Hk. induction lines as [|l lines IH]; intros st Hk; simpl; [done|].
  destruct (processLine_count st l Hk) as [Hk' Hsum'].
  destruct (IH _ Hk') as [Hsum Hres]. split; [lia|].
  assert (length (resolutions st) ≤ length (resolutions (processLine st l))); [|lia].
  unfold processLine. cbv zeta. repeat case_match; try done;
    match goal with
    | |- context [handleUserResponse ?r st] =>
        destruct (handleUserResponse_cases r st) as [->|(?&?&?&_&->)];
          [done|simpl; rewrite length_app; simpl; lia]
    end.
Qed.

Lemma NoDup_bounded_length (l : list nat) n :
  NoDup l → (∀ x, x ∈ l → x < n) → length l ≤ n.
Proof.
  intros Hnd Hlt. trans (length (seq 0 n)); [|by rewrite length_seq].
  apply submseteq_length, NoDup_submseteq; [done|].
  intros x Hx. apply elem_of_seq. specialize (Hlt x Hx). lia.
Qed.

(** X16: the bridge never answers more often than it was asked.  In a
    reachable state the pending records and the resolutions made are, taken
    together, no more than the promises created, and no more children were
    spawned than promises created: at most one of each per call. *)
Theorem answers_do_not_outnumber_sessions st :
  reachable st →
  length (children st) ≤ promises st ∧
  length (pendingRequests st) + length (resolutions st) ≤ promises st.
Proof.
  intros HI%reachable_Inv. split; [apply HI|].
  rewrite <-(length_fmap snd (pendingRequests st)),
    <-(length_fmap fst (resolutions st)), <-length_app.
  apply NoDup_bounded_length.
  - apply NoDup_app. split_and!; [apply HI| |apply HI].
    intros p Hp. by destruct (inv_vals_fresh _ HI p Hp).
  - intros p [Hp|Hp]%elem_of_app.
    + by destruct (inv_vals_fresh _ HI p Hp).
    + by apply (inv_res_bound _ HI).
Qed.

(** *** Shutting down *)

(** X17: on [SIGINT] or [SIGTERM] the tracked child, if there is one, is
    killed and nothing else is touched: the pending records stay in the
    table and no promise is settled, so the callers are left unanswered. *)
Theorem signal_kills_the_tracked_child st :
  reachable st →
  let st' := onSignal st in
  (∀ n, electronProcess st = Some n → isAlive st n = true ∧ isAlive st' n = false) ∧
  (∀ i, electronProcess st ≠ Some i → children st' !! i = children st !! i) ∧
  pendingRequests st' = pendingRequests st ∧
  resolutions st' = resolutions st.
Proof.
  intros HI%reachable_Inv. cbv zeta. unfold onSignal.
  destruct (electronProcess st) as [p|] eqn:Hp; simpl; split_and!; try done.
  - intros n [= <-]. destruct (inv_tracked _ HI p Hp) as [_ (c & Hc & Hk & Hcl)].
    unfold isAlive. simpl. rewrite list_lookup_alter_eq, Hc. simpl.
    by rewrite Hk, Hcl.
  - intros i Hi. apply list_lookup_alter_ne. congruence.
Qed.

(** *** The answers a caller can get *)

(** X18: every resolution made in a reachable state is the timeout notice,
    the empty-input notice, or a reply; and the text of a reply is trimmed,
    not empty, and not the word TIMEOUT. *)
Theorem resolutions_are_notices_or_trimmed_replies st :
  reachable st →
  Forall (λ r, r.2 = timeoutNotice ∨ r.2 = emptyNotice ∨
               ∃ t, r.2 = reply t ∧ trim t = t ∧ t ≠ [] ∧ t ≠ js "TIMEOUT")
    (resolutions st).
Proof.
  set (P := λ r : nat * CallToolResult,
         r.2 = timeoutNotice ∨ r.2 = emptyNotice ∨
         ∃ t, r.2 = reply t ∧ trim t = t ∧ t ≠ [] ∧ t ≠ js "TIMEOUT").
  assert (∀ r s, r = js "TIMEOUT" ∨ trim r = r →
            Forall P (resolutions s) →
            Forall P (resolutions (handleUserResponse r s))) as Hresp.
  { intros r s Hr Hst.
    destruct (handleUserResponse_cases r s) as [->|(k & p & rest & _ & ->)]; [done|].
    simpl. apply Forall_app. split; [done|]. apply Forall_singleton.
    unfold P, resultFor. cbn [snd].
    case_bool_decide as Hword; [by left|].
    destruct Hr as [?|Hr]; [done|].
    destruct (truthy r) eqn:Ht; cbn [negb orb]; [|by right; left].
    case_bool_decide as Hblank; [by right; left|].
    right; right. exists r. split_and!; try done. congruence. }
  intros Hreach. induction Hreach as [|s ev Hs IH Hen]; [by constructor|].
  destruct ev; simpl; try done.
  - by rewrite callTool_resolutions.
  - unfold onStdoutData. cbv zeta. clear Hen Hs.
    generalize (split LF (trim data)). intros lines. revert s IH.
    induction lines as [|l lines IHl]; intros s IH; simpl; [done|].
    apply IHl. unfold processLine. cbv zeta.
    repeat case_match; try done; apply Hresp; try done; [right|by left].
    apply trim_idemp.
Qed.

End Bridge.

(** ** The claims on concrete runs

    The runs below take the default timeout 60 and an empty inherited
    environment. *)

Lemma reachable_two_sessions : reachable 60 ∅ (run 60 ∅ [askFirst; askSecond] initial).
Proof. apply reachable_run; [apply reachable_initial|reflexivity]. Qed.

(** One session from call to reply: the options are handed over as the
    JSON text of the array, the timeout is the default one, and the reply
    settles the promise of the call. *)
Example ask_user_pick_one :
  let args : gmap string JSVal :=
    {[ "projectName" := VStr (js "proj"); "message" := VStr (js "Pick one");
       "predefinedOptions" := VArr [VStr (js "a"); VStr (js "b")] ]} in
  let st1 := run 60 ∅ [CallTool (js "ask_user") (Some args) 1000 None] initial in
  let st2 := step 60 ∅ (StdoutData 0 (js "TEXT_FROM_RENDERER:a" ++ [LF])) st1 in
  (children st1 !! 0) ≫= (λ c, env c !! "DIALOG_PREDEFINED_OPTIONS")
    = Some (VStr ([91; 34] ++ js "a" ++ [34; 44; 34] ++ js "b" ++ [34; 93]))%N ∧
  (children st1 !! 0) ≫= (λ c, env c !! "DIALOG_TIMEOUT") = Some (VStr (js "60")) ∧
  (children st1 !! 0) ≫= (λ c, env c !! "DIALOG_TEXTAREA_HEIGHT") = Some (VStr []) ∧
  settled 0 st2 = Some (reply (js "a")) ∧
  outcomeOf (reply (js "a")) = Some (Replied (js "a")).
Proof. vm_compute. by repeat split. Qed.

(** C1: two calls of [ask_user] are made one after the other, and then the
    child of the second session writes [TEXT_FROM_RENDERER:b].  Starting
    the second session has killed the child of the first one, and both
    records are pending; the reply on the stream of the second child then
    resolves the promise of the first session, and the second session is
    left waiting. *)
Theorem second_stream_fulfils_first_record :
  let st2 := run 60 ∅ [askFirst; askSecond] initial in
  let ev := StdoutData 1 (js "TEXT_FROM_RENDERER:b" ++ [LF]) in
  let st3 := step 60 ∅ ev st2 in
  pendingRequests st2 = [(js "1000", 0); (js "2000", 1)] ∧
  killed <$> children st2 = [true; false] ∧
  electronProcess st2 = Some 1 ∧
  enabled ev st2 = true ∧
  settled 0 st3 = Some (reply (js "b")) ∧
  settled 1 st3 = None ∧
  pendingRequests st3 = [(js "2000", 1)].
Proof. vm_compute. by repeat split. Qed.

(** The close event of a killed child arrives when its successor is
    already tracked, and untracks the successor: the session started next
    does not kill it. *)
Lemma stale_close_untracks_the_successor :
  let evs := [askFirst; askSecond; Close 0 None; askThird] in
  let st := run 60 ∅ evs initial in
  runnable 60 ∅ evs initial = true ∧
  electronProcess (run 60 ∅ [askFirst; askSecond; Close 0 None] initial) = None ∧
  killed <$> children st = [true; false; false] ∧
  alive st = [1; 2].
Proof. vm_compute. by repeat split. Qed.

(** C3: a session is started and its child writes
    [TEXT_FROM_RENDERER:TIMEOUT], the reply of a user who typed the word
    TIMEOUT.  The payload is not blank, and the promise is resolved with the
    timeout result, not with the reply. *)
Theorem reply_TIMEOUT_is_read_as_timeout :
  let st1 := run 60 ∅ [askFirst] initial in
  let ev := StdoutData 0 (js "TEXT_FROM_RENDERER:TIMEOUT" ++ [LF]) in
  let st2 := step 60 ∅ ev st1 in
  trim (js "TIMEOUT") = js "TIMEOUT" ∧
  enabled ev st1 = true ∧
  settled 0 st2 = Some timeoutNotice ∧
  outcomeOf timeoutNotice = Some TimedOut ∧
  outcomeOf (reply (js "TIMEOUT")) = Some (Replied (js "TIMEOUT")).
Proof. vm_compute. by repeat split. Qed.

(** C2, as stated, fails in both its bounds and in the correspondence.
    After two calls of [ask_user] made at different times the state is
    reachable and two records are pending, beside one child alive.  After
    the close event of the first child, killed
    by the second call, nothing is tracked any more, so a third call kills
    nobody: the second and the third child are alive together. *)
Lemma two_records_pending :
  let st := run 60 ∅ [askFirst; askSecond] initial in
  let evs := [askFirst; askSecond; Close 0 None; askThird] in
  let st' := run 60 ∅ evs initial in
  reachable 60 ∅ st ∧
  pendingRequests st = [(js "1000", 0); (js "2000", 1)] ∧
  alive st = [1] ∧
  ¬ length (pendingRequests st) ≤ 1 ∧
  length (pendingRequests st) ≠ length (alive st) ∧
  ¬ singleSession st ∧
  reachable 60 ∅ st' ∧
  alive st' = [1; 2] ∧
  ¬ length (alive st') ≤ 1 ∧
  ¬ singleSession st'.
Proof.
  split_and!.
  - apply reachable_two_sessions.
  - reflexivity.
  - reflexivity.
  - vm_compute. lia.
  - vm_compute. lia.
  - intros [Hlen _]. vm_compute in Hlen. lia.
  - apply reachable_run; [apply reachable_initial|reflexivity].
  - reflexivity.
  - vm_compute. lia.
  - intros (_ & Hlen & _). vm_compute in Hlen. lia.
Qed.

(** C4, as stated, fails for a call of [ask_user] that has no [message]:
    the handler throws nothing, and a child has been spawned when it
    suspends. *)
Lemma call_without_message_is_not_rejected :
  let args : option (gmap string JSVal) :=
    Some {[ "projectName" := VStr (js "proj") ]} in
  let call := callTool 60 ∅ (js "ask_user") args 1000 None initial in
  missesRequired (js "ask_user") args ∧
  call.1 = Await 0 ∧
  length (children call.2) = 1 ∧
  ¬ validated 60 ∅ (js "ask_user") args 1000 None initial.
Proof.
  assert (missesRequired (js "ask_user")
            (Some {[ "projectName" := VStr (js "proj") ]})) as Hmiss.
  { exists {| name := js "ask_user";
              inputSchema := {| properties := ["projectName"; "message"; "predefinedOptions"];
                                required := ["projectName"; "message"] |} |}%string,
           "message"%string.
    split_and!; [by left|done|by right; left|done]. }
  split_and!; [done|reflexivity|reflexivity|].
  intros H. destruct (H Hmiss) as [[e He] _]. discriminate He.
Qed.

(** C6, as stated, fails in two ways.  For the second of two pending
    sessions: its stream emits [DIALOG_TIMEOUT] while its record is
    pending, and the line settles the promise of the first session; the
    promise of the second stays unsettled.  And for a single session whose
    line reaches the bridge in two chunks, [DIALOG_] and [TIMEOUT]: neither
    chunk holds the line, and nothing is settled. *)
Lemma timeout_of_second_session_is_lost :
  let st := run 60 ∅ [askFirst; askSecond] initial in
  let st' := step 60 ∅ (StdoutData 1 (js "DIALOG_TIMEOUT" ++ [LF])) st in
  let cut := [js "DIALOG_"; js "TIMEOUT" ++ [LF]] in
  settled 0 st' = Some timeoutNotice ∧
  settled 1 st' = None ∧
  ¬ timeoutReachesCaller 60 ∅ (run 60 ∅ [askFirst] initial) (js "ask_user")
      (Some {[ "projectName" := VStr (js "proj"); "message" := VStr (js "second?") ]})
      2000 [] [js "DIALOG_TIMEOUT" ++ [LF]] ∧
  settled 0 (run 60 ∅ (StdoutData 0 <$> cut) (run 60 ∅ [askFirst] initial)) = None ∧
  ¬ timeoutReachesCaller 60 ∅ initial (js "ask_user")
      (Some {[ "projectName" := VStr (js "proj"); "message" := VStr (js "first?") ]})
      1000 [] cut.
Proof.
  assert (timesOut (js "DIALOG_TIMEOUT" ++ [LF])) as Hmarker.
  { exists [], (js "DIALOG_TIMEOUT"), [].
    split_and!; [reflexivity|apply Forall_nil_2|reflexivity]. }
  split_and!; [reflexivity|reflexivity| |reflexivity|].
  - intros H. destruct (H (reachable_run 60 ∅ [askFirst] initial
                             (reachable_initial 60 ∅) eq_refl) 1 1 _ eq_refl)
      as (r & Hr & _); try reflexivity.
    + vm_compute. by right; left.
    + exact Hmarker.
    + vm_compute in Hr. discriminate Hr.
  - intros H. destruct (H (reachable_initial 60 ∅) 0 0 _ eq_refl)
      as (r & Hr & _); try reflexivity.
    + vm_compute. by left.
    + exact Hmarker.
    + vm_compute in Hr. discriminate Hr.
Qed.

(** C7, as stated, fails for a call that carries no argument record: the
    handler throws while it takes the record apart, and no process is
    spawned; and for a call whose [spawn] throws: no process is spawned
    either. *)
Lemma confirmation_without_arguments_spawns_nothing :
  let a : gmap string JSVal :=
    {[ "projectName" := VStr (js "proj"); "summary" := VStr (js "Done X") ]} in
  callTool 60 ∅ (js "request_user_confirmation") None 1000 None initial
    = (Throw TypeError, initial) ∧
  ¬ confirmationSpawns 60 ∅ None 1000 None initial ∧
  children (callTool 60 ∅ (js "request_user_confirmation") (Some a) 1000
              (Some (js "spawn E2BIG")) initial).2 = [] ∧
  ¬ confirmationSpawns 60 ∅ (Some a) 1000 (Some (js "spawn E2BIG")) initial.
Proof.
  split_and!; [reflexivity| |reflexivity|];
    intros (old & c & Hch & _); vm_compute in Hch; by destruct old.
Qed.

(** Witnesses *)

Lemma tracked_handle_and_pending_records_witness :
  let st := run 60 ∅ [askFirst; askSecond] initial in
  (∀ n, electronProcess st = Some n →
        S n = length (children st) ∧ isAlive st n = true) ∧
  NoDup (pendingRequests st).*1 ∧
  NoDup (pendingRequests st).*2 ∧
  (∀ n, n ∈ (pendingRequests st).*2 →
        n < promises st ∧ (n ∉ (resolutions st).*1) ∧ settled n st = None).
Proof.
  apply (tracked_handle_and_pending_records 60 ∅).
  apply reachable_run; [apply reachable_initial|reflexivity].
Defined.

Lemma required_fields_are_not_checked_witness :
  let a : gmap string JSVal := {[ "projectName" := VStr (js "proj") ]} in
  let st := run 60 ∅ [askFirst] initial in
  let r := callTool 60 ∅ (js "ask_user") (Some a) 2000 None st in
  let r' := callTool 60 ∅ (js "ask_user") (Some a) 2000 (Some (js "spawn E2BIG")) st in
  (1 ∈ (pendingRequests r.2).*2 ∧
   r.1 = Await 1 ∧
   ∃ old c,
     children r.2 = old ++ [c] ∧
     length old = 1 ∧
     env c !! "DIALOG_PROJECT_NAME" = Some (VStr (js "proj")) ∧
     env c !! "DIALOG_MESSAGE" = Some VUndef) ∧
  (1 ∈ (pendingRequests r'.2).*2 ∧
   r'.1 = Throw (Error (js "Failed to show dialog: spawn E2BIG")) ∧
   length (children r'.2) = 1 ∧
   electronProcess r'.2 = None).
Proof.
  assert (reachable 60 ∅ (run 60 ∅ [askFirst] initial)) as Hreach.
  { apply reachable_run; [apply reachable_initial|reflexivity]. }
  split.
  - exact (required_fields_are_not_checked 60 ∅ (js "ask_user")
             (Some {[ "projectName" := VStr (js "proj") ]}) 2000 None
             (run 60 ∅ [askFirst] initial) Hreach (or_introl eq_refl)).
  - exact (required_fields_are_not_checked 60 ∅ (js "ask_user")
             (Some {[ "projectName" := VStr (js "proj") ]}) 2000
             (Some (js "spawn E2BIG"))
             (run 60 ∅ [askFirst] initial) Hreach (or_introl eq_refl)).
Defined.

Lemma blank_reply_is_EmptyReply_witness :
  let st := run 60 ∅ [askFirst] initial in
  let st' := processLine st (js "TEXT_FROM_RENDERER:" ++ js "   ") in
  ∃ new,
    resolutions st' = resolutions st ++ new ∧
    Forall (λ r, outcomeOf r.2 = Some EmptyReply) new ∧
    ∀ requestId p rest,
      pendingRequests st = (requestId, p) :: rest →
      new = [(p, emptyNotice)] ∧ pendingRequests st' = rest.
Proof.
  apply (blank_reply_is_EmptyReply 60 ∅).
  - apply reachable_run; [apply reachable_initial|reflexivity].
  - reflexivity.
Defined.

Lemma timeout_settles_the_only_pending_record_witness :
  let st := run 60 ∅ [askFirst] initial in
  let prior := [js "window ready" ++ [LF]; js "DIALOG_CLOSED" ++ [LF]] in
  let data := js "render done" ++ [LF] ++ js "DIALOG_TIMEOUT" ++ [LF]
              ++ js "DIALOG_CLOSED" ++ [LF] in
  let st' := run 60 ∅ ((StdoutData 0 <$> prior) ++ [StdoutData 0 data]) st in
  settled 0 st' = Some timeoutNotice ∧
  outcomeOf timeoutNotice = Some TimedOut ∧
  pendingRequests st' = [].
Proof.
  apply (timeout_settles_the_only_pending_record 60 ∅ _ (js "1000")).
  - apply reachable_run; [apply reachable_initial|reflexivity].
  - reflexivity.
  - reflexivity.
  - repeat constructor.
  - exists [js "render done"], (js "DIALOG_TIMEOUT"), [js "DIALOG_CLOSED"].
    split_and!; [reflexivity|by repeat constructor|reflexivity].
Defined.

Lemma unknown_tool_is_rejected_witness :
  callTool 60 ∅ (js "delete_files") None 1000 None initial
  = (Throw (Error (js "Unknown tool: delete_files")), initial).
Proof.
  apply (unknown_tool_is_rejected 60 ∅ (js "delete_files") None 1000 None initial);
    vm_compute; discriminate.
Defined.

Lemma dialog_closed_is_ignored_witness :
  let st := run 60 ∅ [askFirst] initial in
  processLine st (js "DIALOG_CLOSED ") = st ∧
  step 60 ∅ (StdoutData 0 (js "DIALOG_CLOSED ")) st = st.
Proof.
  apply (dialog_closed_is_ignored 60 ∅ 0 (js "DIALOG_CLOSED ")).
  reflexivity.
Defined.

Lemma terminal_event_without_pending_record_witness :
  let st := run 60 ∅ [askFirst; StdoutData 0 (js "TEXT_FROM_RENDERER:yes")] initial in
  (pendingRequests st = [] →
   ∀ userResponse line child data,
     handleUserResponse userResponse st = st ∧
     processLine st line = st ∧
     step 60 ∅ (StdoutData child data) st = st) ∧
  NoDup (resolutions st).*1 ∧
  (∀ p, p ∈ (resolutions st).*1 → p ∉ (pendingRequests st).*2).
Proof.
  apply (terminal_event_without_pending_record 60 ∅).
  apply reachable_run; [apply reachable_initial|reflexivity].
Defined.

(** ** The timeout of the command line *)

Lemma js_inj s1 s2 : js s1 = js s2 → s1 = s2.
Proof.
  revert s2. induction s1 as [|a s1 IH]; intros [|b s2]; try done.
  unfold js. simpl. intros [= Hab Hs].
  f_equal; [|by apply IH].
  by rewrite <-(ascii_N_embedding a), <-(ascii_N_embedding b), Hab.
Qed.

Lemma toString_inj n m : toString n = toString m → n = m.
Proof. intros H%js_inj. by apply (inj pretty). Qed.

Lemma isDigit_cases c :
  isDigit c = true →
  (c = 48 ∨ c = 49 ∨ c = 50 ∨ c = 51 ∨ c = 52 ∨
   c = 53 ∨ c = 54 ∨ c = 55 ∨ c = 56 ∨ c = 57)%N.
Proof.
  unfold isDigit. intros [H1%N.leb_le H2%N.leb_le]%andb_true_iff. lia.
Qed.

Lemma pretty_N_char_digit d :
  (d < 10)%N →
  isDigit (N_of_ascii (pretty_N_char d)) = true ∧
  (N_of_ascii (pretty_N_char d) - 48)%N = d.
Proof.
  intros Hd.
  assert (d = 0 ∨ d = 1 ∨ d = 2 ∨ d = 3 ∨ d = 4 ∨
          d = 5 ∨ d = 6 ∨ d = 7 ∨ d = 8 ∨ d = 9)%N as Hcases by lia.
  repeat (destruct Hcases as [->|Hcases]; [done|]). by subst.
Qed.

(** Reading the digits [pretty_N_go] writes gives the number back. *)
Lemma digitsValue_pretty_N_go x s :
  ∃ k : nat, ∀ acc,
    digitsValue (js (pretty_N_go x s)) acc
    = digitsValue (js s) (acc * 10 ^ Z.of_nat k + Z.of_N x)%Z.
Proof.
  revert s. induction (N.lt_wf_0 x) as [x _ IH]; intros s.
  destruct (decide (x = 0%N)) as [->|Hx].
  { exists 0. intros acc. rewrite pretty_N_go_0. f_equal. simpl. lia. }
  rewrite pretty_N_go_step by lia.
  destruct (IH (x `div` 10)%N) with (s := String (pretty_N_char (x `mod` 10)) s)
    as [k Hk]; [apply N.div_lt; lia|].
  exists (S k). intros acc. rewrite Hk.
  change (js (String (pretty_N_char (x `mod` 10)) s))
    with (N_of_ascii (pretty_N_char (x `mod` 10)) :: js s).
  destruct (pretty_N_char_digit (x `mod` 10)%N) as [Hd Hv]; [by apply N.mod_lt|].
  simpl digitsValue. rewrite Hd, Hv. f_equal.
  rewrite Nat2Z.inj_succ, Z.pow_succ_r by lia.
  rewrite (N.div_mod x 10) at 3 by done. lia.
Qed.

Lemma digits_pretty_N_go x s :
  Forall (λ c, isDigit c = true) (js s) →
  Forall (λ c, isDigit c = true) (js (pretty_N_go x s)).
Proof.
  revert s. induction (N.lt_wf_0 x) as [x _ IH]; intros s Hs.
  destruct (decide (x = 0%N)) as [->|Hx]; [by rewrite pretty_N_go_0|].
  rewrite pretty_N_go_step by lia. apply IH; [apply N.div_lt; lia|].
  change (js (String (pretty_N_char (x `mod` 10)) s))
    with (N_of_ascii (pretty_N_char (x `mod` 10)) :: js s).
  constructor; [|done]. by apply pretty_N_char_digit, N.mod_lt.
Qed.

Lemma digitsValue_nonneg s acc : (0 ≤ acc → 0 ≤ digitsValue s acc)%Z.
Proof.
  revert acc. induction s as [|c s IH]; intros acc Hacc; simpl; [done|].
  destruct (isDigit c); [apply IH; lia|done].
Qed.

(** What [parseInt] holds exactly is below 2^53. *)
Lemma parseInt_bound s n : parseInt s = Exact n → (Z.abs n < 2 ^ 53)%Z.
Proof.
  unfold parseInt. cbv zeta. case_match.
  destruct l as [|c d]; [done|].
  pose proof (digitsValue_nonneg (c :: d) 0%Z) as Hpos.
  set (m := digitsValue (c :: d) 0) in *. clearbody m.
  destruct (isDigit c); [|done].
  destruct (Z.ltb_spec m (2 ^ 53)) as [Hlt|]; [|done].
  intros [= <-]. destruct b; lia.
Qed.

Lemma parseInt_digit_head c d :
  isDigit c = true →
  parseInt (c :: d)
  = (if (digitsValue (c :: d) 0 <? 2 ^ 53)%Z
     then Exact (1 * digitsValue (c :: d) 0)%Z else Rounded) ∧
  parseInt (45%N :: c :: d)
  = (if (digitsValue (c :: d) 0 <? 2 ^ 53)%Z
     then Exact (-1 * digitsValue (c :: d) 0)%Z else Rounded).
Proof.
  intros Hc%isDigit_cases.
  repeat (destruct Hc as [->|Hc]; [split; reflexivity|]).
  subst. split; reflexivity.
Qed.

Lemma parseInt_digits d :
  d ≠ [] →
  Forall (λ c, isDigit c = true) d →
  (digitsValue d 0 < 2 ^ 53)%Z →
  parseInt d = Exact (digitsValue d 0) ∧
  parseInt (45%N :: d) = Exact (- digitsValue d 0)%Z.
Proof.
  intros Hne Hd Hlt. destruct d as [|c d]; [done|].
  apply Forall_cons in Hd as [Hc _].
  destruct (parseInt_digit_head c d Hc) as [-> ->].
  rewrite (proj2 (Z.ltb_lt _ _) Hlt). split; f_equal; lia.
Qed.

Lemma parseInt_toString p :
  (Z.pos p < 2 ^ 53)%Z →
  parseInt (toString (Z.pos p)) = Exact (Z.pos p) ∧
  parseInt (toString (Z.neg p)) = Exact (Z.neg p).
Proof.
  intros Hlt.
  assert (js (pretty (N.pos p)) ≠ []) as Hne.
  { intros E%js_nil_inv. by destruct (pretty_N_nonempty (N.pos p)). }
  assert (pretty (N.pos p) = pretty_N_go (N.pos p) "") as Epretty by done.
  assert (Forall (λ c, isDigit c = true) (js (pretty (N.pos p)))) as Hd.
  { rewrite Epretty. apply digits_pretty_N_go. constructor. }
  assert (digitsValue (js (pretty (N.pos p))) 0 = Z.pos p) as Hv.
  { rewrite Epretty. destruct (digitsValue_pretty_N_go (N.pos p) "") as [k ->].
    simpl. lia. }
  destruct (parseInt_digits _ Hne Hd) as [Hpos Hneg]; [by rewrite Hv|].
  rewrite Hv in Hpos, Hneg. split; [exact Hpos|exact Hneg].
Qed.

(** X19: the decimal numeral of a number other than zero, given as the
    timeout of the command line, is read back as that number (for numbers
    a JS number holds exactly). *)
Theorem timeout_numeral_is_read_back n :
  n ≠ 0%Z →
  (Z.abs n < 2 ^ 53)%Z →
  dialogTimeoutOf (toString n) = Some n.
Proof.
  intros Hn Hlt. unfold dialogTimeoutOf.
  destruct n as [|p|p]; [done|..];
    (destruct (parseInt_toString p) as [Hpos Hneg]; [lia|]);
    by rewrite ?Hpos, ?Hneg.
Qed.

(** X20: the command line cannot switch the timeout of [ask_user] off.
    Whatever string is given, a default timeout that is held exactly is not
    zero (a string that is no number, and the number zero, give 60), so the
    timeout handed to a child of [ask_user] is never the [0] that means no
    timeout. *)
Theorem command_line_timeout_is_never_zero timeout dialogTimeout process_env a now st :
  dialogTimeoutOf timeout = Some dialogTimeout →
  let st' := (callTool dialogTimeout process_env (js "ask_user") (Some a) now None st).2 in
  dialogTimeout ≠ 0%Z ∧
  (Z.abs dialogTimeout < 2 ^ 53)%Z ∧
  (parseInt timeout = NaN ∨ parseInt timeout = Exact 0%Z → dialogTimeout = 60%Z) ∧
  ∃ old c,
    children st' = old ++ [c] ∧
    env c !! "DIALOG_TIMEOUT" = Some (VStr (toString dialogTimeout)) ∧
    env c !! "DIALOG_TIMEOUT" ≠ Some (VStr (js "0")).
Proof.
  intros Hd. cbv zeta.
  assert (dialogTimeout ≠ 0%Z ∧ (Z.abs dialogTimeout < 2 ^ 53)%Z ∧
          (parseInt timeout = NaN ∨ parseInt timeout = Exact 0%Z → dialogTimeout = 60%Z))
    as (Hnz & Hlt & Hdefault).
  { unfold dialogTimeoutOf in Hd.
    destruct (parseInt timeout) as [|n|] eqn:E; [| |done].
    - injection Hd as <-. split_and!; [done|done|done].
    - apply parseInt_bound in E. injection Hd as <-.
      destruct (Z.eqb_spec n 0) as [->|Hn]; split_and!; try done.
      intros [?|[= ?]]; done. }
  split_and!; [done|done|done|].
  destruct (callTool_spawns dialogTimeout process_env (js "ask_user") a now st)
    as (old & c & Hch & _ & _ & _ & _ & _ & _ & _ & Hto & _); [by left|].
  exists old, c. split_and!; [done|done|].
  rewrite Hto. intros [= E]. apply Hnz, toString_inj. exact E.
Qed.

(** Witnesses of the further properties *)

Lemma ask_user_handoff_witness :
  let a : gmap string JSVal :=
    {[ "projectName" := VStr (js "proj"); "message" := VStr (js "Pick one");
       "predefinedOptions" := VArr [VStr (js "a"); VNum 2] ]} in
  let st' := (callTool 60 ∅ (js "ask_user") (Some a) 1000 None initial).2 in
  ∃ old c,
    children st' = old ++ [c] ∧
    length old = length (children initial) ∧
    electronProcess st' = Some (length (children initial)) ∧
    env c !! "DIALOG_PROJECT_NAME" = Some (prop a "projectName") ∧
    env c !! "DIALOG_MESSAGE" = Some (prop a "message") ∧
    env c !! "DIALOG_TIMEOUT" = Some (VStr (toString 60)) ∧
    env c !! "DIALOG_TEXTAREA_HEIGHT" = Some (VStr []) ∧
    env c !! "DIALOG_PREDEFINED_OPTIONS"
      = Some (match prop a "predefinedOptions" with
              | VUndef => VStr (js "[]")
              | v => JSON_stringify v
              end).
Proof.
  apply (ask_user_handoff 60 ∅); [vm_compute; reflexivity|reflexivity].
Defined.


Lemma start_kills_the_tracked_child_only_witness :
  let st := run 60 ∅ [askFirst] initial in
  match children st !! 0 with
  | Some c =>
      children (startElectronGUIWithData 60 ∅ (VStr (js "proj")) (VStr (js "again?"))
                  VUndef None None (Some (js "spawn E2BIG")) st).2 !! 0
      = Some {| env := env c;
                killed := killed c || bool_decide (electronProcess st = Some 0);
                closed := closed c |}
  | None => False
  end.
Proof.
  cbv zeta.
  destruct (children (run 60 ∅ [askFirst] initial) !! 0) as [c|] eqn:E.
  - by apply (start_kills_the_tracked_child_only 60 ∅).
  - vm_compute in E. discriminate E.
Defined.

Lemma call_after_close_kills_nobody_witness :
  let st := run 60 ∅ [askFirst; askSecond] initial in
  let st1 := step 60 ∅ (Close 0 None) st in
  let st2 := (callTool 60 ∅ (js "ask_user")
                (Some {[ "projectName" := VStr (js "proj") ]}) 3000 None st1).2 in
  ∃ c, children st2 = children st1 ++ [c] ∧
       electronProcess st2 = Some (length (children st1)).
Proof.
  exact (call_after_close_kills_nobody 60 ∅ 0 None (js "ask_user")
           {[ "projectName" := VStr (js "proj") ]} 3000 None
           (run 60 ∅ [askFirst; askSecond] initial) (or_introl eq_refl)).
Defined.

Lemma responses_are_served_in_table_order_witness :
  let st := run 60 ∅ [askFirst; askSecond] initial in
  let rs := [js "yes"; js "TIMEOUT"; js "late"] in
  let st' := foldl (λ st r, handleUserResponse r st) st rs in
  pendingRequests st' = drop (length rs) (pendingRequests st) ∧
  resolutions st'
  = resolutions st ++ zip (pendingRequests st).*2 (resultFor <$> rs).
Proof.
  apply (responses_are_served_in_table_order 60 ∅).
  apply reachable_run; [apply reachable_initial|reflexivity].
Defined.

Lemma nonblank_reply_is_Replied_witness :
  let st := run 60 ∅ [askFirst] initial in
  processLine st (js "TEXT_FROM_RENDERER:" ++ js "  option a ")
  = resolve 0 (reply (trim (js "  option a "))) (set_pendingRequests [] st) ∧
  outcomeOf (reply (trim (js "  option a ")))
  = Some (Replied (trim (js "  option a "))).
Proof.
  apply (nonblank_reply_is_Replied 60 ∅ _ (js "  option a ") (js "1000") 0 []).
  - apply reachable_run; [apply reachable_initial|reflexivity].
  - reflexivity.
  - vm_compute. discriminate.
  - vm_compute. discriminate.
Defined.

Lemma line_padding_is_ignored_witness :
  let st := run 60 ∅ [askFirst] initial in
  processLine st ([32; 9]%N ++ js "DIALOG_TIMEOUT" ++ [13]%N)
  = processLine st (js "DIALOG_TIMEOUT").
Proof.
  apply (line_padding_is_ignored (run 60 ∅ [askFirst] initial)
           [32; 9]%N (js "DIALOG_TIMEOUT") [13]%N); reflexivity.
Defined.

Lemma chunk_changes_state_only_by_terminal_line_witness :
  let st := run 60 ∅ [askFirst] initial in
  let data := js "ready" ++ [LF] ++ js "DIALOG_TIMEOUT" ++ [LF] in
  pendingRequests st ≠ [] ∧
  ∃ line, line ∈ split LF (trim data) ∧ terminal line = true.
Proof.
  apply (chunk_changes_state_only_by_terminal_line 60 ∅ 0).
  intros H. apply (f_equal pendingRequests) in H. vm_compute in H. discriminate H.
Defined.

Lemma marker_cut_in_two_is_lost_witness :
  let st := run 60 ∅ [askFirst] initial in
  run 60 ∅ [StdoutData 0 (js "DIALOG_"); StdoutData 0 (js "TIMEOUT")] st = st.
Proof.
  apply (marker_cut_in_two_is_lost 60 ∅ 0 (js "DIALOG_") (js "TIMEOUT")).
  - reflexivity.
  - vm_compute. discriminate.
  - vm_compute. discriminate.
Defined.

Lemma without_stdout_nothing_is_settled_witness :
  let st := run 60 ∅ [askFirst] initial in
  resolutions (run 60 ∅ [StderrData 0 (js "gpu warning"); Close 0 (Some 1%Z); askSecond] st)
  = resolutions st.
Proof.
  apply (without_stdout_nothing_is_settled 60 ∅).
  repeat constructor; discriminate.
Defined.

Lemma promise_without_record_is_never_settled_witness :
  let st := run 60 ∅ [askFirst; CallTool (js "ask_user")
                        (Some {[ "projectName" := VStr (js "proj") ]}) 1000 None] initial in
  let st' := run 60 ∅ [StdoutData 1 (js "TEXT_FROM_RENDERER:a");
                      StdoutData 1 (js "TEXT_FROM_RENDERER:b")] st in
  settled 0 st' = None ∧ 0 ∉ (resolutions st').*1.
Proof.
  apply (promise_without_record_is_never_settled 60 ∅ 0).
  - vm_compute. lia.
  - vm_compute. intros [E|E]%elem_of_cons; [discriminate E|by apply elem_of_nil in E].
  - vm_compute. apply not_elem_of_nil.
Defined.

Lemma call_in_the_same_millisecond_displaces_witness :
  let st := run 60 ∅ [askFirst] initial in
  let st' := (callTool 60 ∅ (js "request_user_confirmation")
                (Some {[ "projectName" := VStr (js "proj") ]}) 1000 None st).2 in
  length (pendingRequests st') = length (pendingRequests st) ∧
  (0 ∉ (pendingRequests st').*2) ∧
  settled 0 st' = None ∧
  ∀ evs, settled 0 (run 60 ∅ evs st') = None ∧ 0 ∉ (resolutions (run 60 ∅ evs st')).*1.
Proof.
  apply (call_in_the_same_millisecond_displaces 60 ∅).
  - apply reachable_run; [apply reachable_initial|reflexivity].
  - by right.
  - vm_compute. left.
Defined.

Lemma call_queues_behind_the_pending_witness :
  let st := run 60 ∅ [askFirst] initial in
  let a : gmap string JSVal := {[ "projectName" := VStr (js "proj") ]} in
  (callTool 60 ∅ (js "ask_user") (Some a) 2000 None st).1 = Await (promises st) ∧
  pendingRequests (callTool 60 ∅ (js "ask_user") (Some a) 2000 None st).2
  = pendingRequests st ++ [(toString 2000, promises st)].
Proof.
  apply (call_queues_behind_the_pending 60 ∅ (js "ask_user") _ 2000 None).
  - apply reachable_run; [apply reachable_initial|reflexivity].
  - by left.
  - vm_compute. intros [E|E]%elem_of_cons; [discriminate E|by apply elem_of_nil in E].
Defined.

Lemma chunk_resolves_what_it_removes_witness :
  let st := run 60 ∅ [askFirst; askSecond] initial in
  let st' := step 60 ∅ (StdoutData 1 (js "TEXT_FROM_RENDERER:a" ++ [LF] ++ js "DIALOG_TIMEOUT")) st in
  length (pendingRequests st') + length (resolutions st')
  = length (pendingRequests st) + length (resolutions st) ∧
  length (pendingRequests st') ≤ length (pendingRequests st).
Proof.
  apply (chunk_resolves_what_it_removes 60 ∅).
  apply reachable_run; [apply reachable_initial|reflexivity].
Defined.

Lemma answers_do_not_outnumber_sessions_witness :
  let st := run 60 ∅ [askFirst; askSecond; StdoutData 1 (js "TEXT_FROM_RENDERER:a")] initial in
  length (children st) ≤ promises st ∧
  length (pendingRequests st) + length (resolutions st) ≤ promises st.
Proof.
  apply (answers_do_not_outnumber_sessions 60 ∅).
  apply reachable_run; [apply reachable_initial|reflexivity].
Defined.

Lemma signal_kills_the_tracked_child_witness :
  let st := run 60 ∅ [askFirst; askSecond] initial in
  let st' := onSignal st in
  (∀ n, electronProcess st = Some n → isAlive st n = true ∧ isAlive st' n = false) ∧
  (∀ i, electronProcess st ≠ Some i → children st' !! i = children st !! i) ∧
  pendingRequests st' = pendingRequests st ∧
  resolutions st' = resolutions st.
Proof.
  apply (signal_kills_the_tracked_child 60 ∅).
  apply reachable_run; [apply reachable_initial|reflexivity].
Defined.

Lemma resolutions_are_notices_or_trimmed_replies_witness :
  let st := run 60 ∅ [askFirst; askSecond;
                     StdoutData 1 (js "TEXT_FROM_RENDERER: a " ++ [LF] ++ js "DIALOG_TIMEOUT")]
              initial in
  Forall (λ r, r.2 = timeoutNotice ∨ r.2 = emptyNotice ∨
               ∃ t, r.2 = reply t ∧ trim t = t ∧ t ≠ [] ∧ t ≠ js "TIMEOUT")
    (resolutions st).
Proof.
  apply (resolutions_are_notices_or_trimmed_replies 60 ∅).
  apply reachable_run; [apply reachable_initial|reflexivity].
Defined.

Lemma timeout_numeral_is_read_back_witness :
  dialogTimeoutOf (toString 120) = Some 120%Z.
Proof. apply (timeout_numeral_is_read_back 120); [discriminate|reflexivity]. Defined.

Lemma command_line_timeout_is_never_zero_witness :
  let a : gmap string JSVal := {[ "projectName" := VStr (js "proj") ]} in
  let st' := (callTool 60 ∅ (js "ask_user") (Some a) 1000 None initial).2 in
  (60 ≠ 0)%Z ∧
  (Z.abs 60 < 2 ^ 53)%Z ∧
  (parseInt (js "0") = NaN ∨ parseInt (js "0") = Exact 0%Z → 60 = 60)%Z ∧
  ∃ old c,
    children st' = old ++ [c] ∧
    env c !! "DIALOG_TIMEOUT" = Some (VStr (toString 60)) ∧
    env c !! "DIALOG_TIMEOUT" ≠ Some (VStr (js "0")).
Proof.
  apply (command_line_timeout_is_never_zero (js "0") 60 ∅). reflexivity.
Defined.
